(** * Stream-feature negotiation of mellium.im/xmpp: resource binding,
      in-band registration/recovery and random identifiers.

    A shallow embedding of [bind.go], [internal.RandomID] and
    [ibr2/ibr2.go].  Go values that the code only passes around (XML
    tokens, JIDs, errors) are plain data; the collaborators whose code
    lives in other packages (the XML decoder, [stanza.WrapIQ], the [jid]
    methods, ...) are the fields of one record, [Externals], over which
    the bind feature is parameterised. *)

From Stdlib Require Import ZArith Ascii String.
From stdpp Require Import base gmap sets list strings.

#[local] Set Warnings "-clear-no-such-hyp".

Local Open Scope string_scope.
Local Open Scope Z_scope.
Local Open Scope list_scope.

(** ** Go values shared by the three files *)

(** [encoding/xml]: names, attributes, tokens. *)
Record Name : Type := mkName { Space : string; Local_ : string }.

Record Attr : Type := mkAttr { AttrName : Name; Value : string }.

Record StartElement : Type := mkStart { ElName : Name; ElAttr : list Attr }.

Inductive Token : Type :=
| StartTok (s : StartElement)
| EndTok (n : Name)
| CharData (s : string)
| OtherTok (s : string).   (* Comment, ProcInst, Directive *)

#[global] Instance Name_eq_dec : EqDecision Name.
Proof. solve_decision. Defined.

#[global] Instance Attr_eq_dec : EqDecision Attr.
Proof. solve_decision. Defined.

#[global] Instance StartElement_eq_dec : EqDecision StartElement.
Proof. solve_decision. Defined.

#[global] Instance Token_eq_dec : EqDecision Token.
Proof. solve_decision. Defined.

(** [start.End()]. *)
Definition End (s : StartElement) : Token := EndTok (ElName s).

(** [jid.JID]: only ever handled through a pointer in these files, so a
    possibly-nil JID is an [option JID]. *)
Record JID : Type := mkJID {
  localpart : string;
  domainpart : string;
  resourcepart : string
}.

#[global] Instance JID_eq_dec : EqDecision JID.
Proof. solve_decision. Defined.

(** [stanza.Error], the fields these files touch. *)
Record StanzaError : Type := mkStanzaError {
  ErrType : string;
  Condition : string
}.

#[global] Instance StanzaError_eq_dec : EqDecision StanzaError.
Proof. solve_decision. Defined.

(** The dynamic types an [error] interface value takes in these files.
    [err.(stanza.Error)] succeeds on [StanzaErr] only: a [*stanza.Error]
    stored in the interface is a different dynamic type. *)
Inductive error : Type :=
| StreamErr (cond : string)              (* stream.Error values *)
| StanzaErr (e : StanzaError)            (* stanza.Error, by value *)
| StanzaErrPtr (p : option StanzaError)  (* *stanza.Error, maybe a nil pointer *)
| ErrorString (msg : string).            (* errors.New, io and net errors *)

#[global] Instance error_eq_dec : EqDecision error.
Proof. solve_decision. Defined.

Definition io_EOF : error := ErrorString "EOF".

(** What a [panic] carries. *)
Inductive PanicValue : Type :=
| PanicError (e : error)
| PanicString (s : string)
| PanicRuntime (s : string).

(** A Go call either returns or panics. *)
Inductive Outcome (A : Type) : Type :=
| Returned (a : A)
| Panicked (p : PanicValue).

Arguments Returned {A} a.
Arguments Panicked {A} p.

(** A value of type [interface{}] as passed from Parse to Negotiate. *)
Inductive iface : Type :=
| INil
| IBool (b : bool)
| IOther (s : string).

#[global] Instance Outcome_ret : MRet Outcome := fun _ a => Returned a.

#[global] Instance Outcome_bind : MBind Outcome := fun _ _ k m =>
  match m with
  | Returned a => k a
  | Panicked p => Panicked p
  end.

(** ** [internal.RandomID] *)

(** [crypto/rand]: the entropy pool either serves bytes or fails whenever
    bytes are asked of it. *)
Inductive Entropy : Type :=
| Avail (pool : nat -> Byte.byte)
| Unavail (e : error).

(** [rand.Read(b)] on a buffer of [len] bytes: the buffer is filled from
    the pool; an empty buffer is full without the pool being read, so only
    a read of at least one byte can fail. *)
Definition rand_Read (rnd : Entropy) (len : nat) : error + list Byte.byte :=
  match rnd with
  | Avail pool => inr (List.map pool (seq 0 len))
  | Unavail e =>
      match len with
      | O => inr []
      | S _ => inl e
      end
  end.

Definition hexdigits : list ascii :=
  list_ascii_of_string "0123456789abcdef".

Definition hexdigit (n : N) : ascii :=
  nth (N.to_nat n) hexdigits "0"%char.

(** [fmt.Sprintf("%x", b)] for a byte slice: two lowercase digits per byte. *)
Fixpoint sprintf_x (b : list Byte.byte) : string :=
  match b with
  | [] => EmptyString
  | x :: b' =>
      let n := Byte.to_N x in
      String (hexdigit (N.shiftr n 4))
        (String (hexdigit (N.land n 15)) (sprintf_x b'))
  end.

(** [RandomID(n)].  [n] is a Go [int]; [n/2] truncates towards zero and
    [n&1] is the low bit.  [make] panics on a negative length and [s[:n]]
    on bounds outside the string. *)
Definition RandomID (rnd : Entropy) (n : Z) : Outcome string :=
  let len := Z.quot n 2 + Z.land n 1 in
  if len <? 0 then Panicked (PanicRuntime "makeslice: len out of range")
  else
    match rand_Read rnd (Z.to_nat len) with
    | inl err => Panicked (PanicError err)
    | inr b =>
        let s := sprintf_x b in
        if (n <? 0) || (Z.of_nat (String.length s) <? n)
        then Panicked (PanicRuntime "slice bounds out of range")
        else Returned (substring 0 (Z.to_nat n) s)
    end.

(** Lowercase hexadecimal characters and strings. *)
Definition is_lower_hex (c : ascii) : bool :=
  bool_decide (c ∈ hexdigits).

Fixpoint all_chars (p : ascii -> bool) (s : string) : bool :=
  match s with
  | EmptyString => true
  | String c s' => p c && all_chars p s'
  end.

(** ** Token writers

    [xml.Encoder] and [xmlstream.TokenWriter]: the tokens accepted so far,
    and the two ways the underlying connection can refuse, which may depend
    on everything written before. *)
Record TokenWriter : Type := mkWriter {
  written : list Token;
  refuses : list Token -> Token -> option error;
  flush_refuses : list Token -> option error
}.

Definition EncodeToken (e : TokenWriter) (t : Token) : TokenWriter * option error :=
  match refuses e (written e) t with
  | Some err => (e, Some err)
  | None => (mkWriter (written e ++ [t]) (refuses e) (flush_refuses e), None)
  end.

Definition Flush (e : TokenWriter) : option error :=
  flush_refuses e (written e).

(** Go's [if err = f(); err != nil { return }]. *)
Definition and_then {R : Type} (r : TokenWriter * option error)
    (k : TokenWriter -> R) (fail : TokenWriter -> error -> R) : R :=
  match r with
  | (e, Some err) => fail e err
  | (e, None) => k e
  end.

(** A writer that accepts everything. *)
Definition reliable (out : list Token) : TokenWriter :=
  mkWriter out (fun _ _ => None) (fun _ => None).

(** [xmlstream.Wrap(inner, start)]. *)
Definition Wrap (inner : list Token) (start : StartElement) : list Token :=
  StartTok start :: inner ++ [End start].

(** [xmlstream.Copy(w, r)]: tokens are encoded one by one until the reader
    is drained or the writer refuses; once the reader is drained the writer
    is flushed and the result of [Flush] is the error returned.  Returns
    the number of tokens copied. *)
Fixpoint Copy (w : TokenWriter) (r : list Token) : TokenWriter * (nat * option error) :=
  match r with
  | [] => (w, (0%nat, Flush w))
  | t :: r' =>
      match EncodeToken w t with
      | (w', Some err) => (w', (0%nat, Some err))
      | (w', None) =>
          let '(w'', (n, err)) := Copy w' r' in (w'', (S n, err))
      end
  end.

(** ** Session state

    Modelled from the spec: the [SessionState] bitmask of session.go, with
    the four named bits of section 3 in their declaration order. *)
Definition SessionState : Type := Z.

Definition Secure : SessionState := 1.
Definition Authn : SessionState := 2.
Definition Ready : SessionState := 4.
Definition Received : SessionState := 8.

(** [io.ReadWriter], as an opaque handle. *)
Inductive ReadWriter : Type := Conn (name : string).

(** Modelled from the spec: the [Session] of session.go as far as the
    features use it: the state bits, the address [origin], what
    [RemoteAddr()] answers, the results the token decoder reading from the
    session will give on successive [Token] calls, and the session as a
    token writer. *)
Record Session : Type := mkSession {
  State : SessionState;
  origin : option JID;
  RemoteAddr : option JID;
  input : list (error + Token);
  conn : TokenWriter
}.

Definition set_origin (s : Session) (j : option JID) : Session :=
  mkSession (State s) j (RemoteAddr s) (input s) (conn s).

Definition set_input (s : Session) (i : list (error + Token)) : Session :=
  mkSession (State s) (origin s) (RemoteAddr s) i (conn s).

Definition set_conn (s : Session) (w : TokenWriter) : Session :=
  mkSession (State s) (origin s) (RemoteAddr s) (input s) w.

(** What Negotiate returns: [(mask, rw, err)]. *)
Definition NegotiateResult : Type :=
  (SessionState * option ReadWriter * option error)%type.

(** ** ibr2/ibr2.go *)

(** [Challenge], the field the feature functions read. *)
Record Challenge : Type := mkChallenge { ChallengeType : string }.

Definition challengeStart : StartElement := mkStart (mkName "" "challenge") [].

(** The [for _, c := range challenges] loop of [listFunc]. *)
Fixpoint listLoop (challenges : list Challenge) (seen : gset string)
    (e : TokenWriter) : TokenWriter * option error :=
  match challenges with
  | [] => (e, None)
  | c :: rest =>
      if decide (ChallengeType c ∈ seen) then listLoop rest seen e
      else
        and_then (EncodeToken e (StartTok challengeStart)) (fun e =>
        and_then (EncodeToken e (CharData (ChallengeType c))) (fun e =>
        and_then (EncodeToken e (End challengeStart)) (fun e =>
        listLoop rest ({[ChallengeType c]} ∪ seen) e)
        (fun e err => (e, Some err)))
        (fun e err => (e, Some err)))
        (fun e err => (e, Some err))
  end.

(** [listFunc(challenges...)(ctx, e, start)]: the results [(req, err)] and
    the encoder afterwards. *)
Definition listFunc (challenges : list Challenge) (e : TokenWriter)
    (start : StartElement) : (bool * option error) * TokenWriter :=
  let req := false in
  and_then (EncodeToken e (StartTok start)) (fun e =>
  and_then (listLoop challenges ∅ e) (fun e =>
  and_then (EncodeToken e (End start)) (fun e =>
  ((req, Flush e), e))
  (fun e err => ((req, Some err), e)))
  (fun e err => ((req, Some err), e)))
  (fun e err => ((req, Some err), e)).

(** [d.DecodeElement(&parsed, start)] for the struct holding
    [Challenges []string]: the decoder's answer for a start element. *)
Definition ChallengeDecoder : Type := StartElement -> error + list string.

(** [parseFunc(challenges...)(ctx, d, start)]. *)
Definition parseFunc (challenges : list Challenge) (d : ChallengeDecoder)
    (start : StartElement) : bool * iface * option error :=
  match d start with
  | inl err => (false, IBool false, Some err)
  | inr parsed =>
      let m : gset string := ∅ in
      let m := foldl (fun m c => {[ChallengeType c]} ∪ m) m challenges in
      let m := foldl (fun m c => {[c]} ∪ m) m parsed in
      (false, IBool (size m <=? length challenges)%nat, None)
  end.

(** [negotiateFunc(challenges...)(ctx, session, supported)]. *)
Definition negotiateFunc (challenges : list Challenge) (session : Session)
    (supported : iface) : Outcome NegotiateResult :=
  let server := bool_decide (Z.land (State session) Received = Received) in
  cond ← (if negb server then
            match supported with
            | IBool b => Returned (negb b)
            | _ => Panicked (PanicRuntime "interface conversion: interface {} is not bool")
            end
          else Returned false);
  if (cond : bool) then Returned (0, None, None)
  else Panicked (PanicString "not yet supported").

(** What the spec calls the advertised list: the distinct types in
    first-seen order. *)
Fixpoint first_seen (types : list string) : list string :=
  match types with
  | [] => []
  | t :: rest => t :: filter (fun u => u ≠ t) (first_seen rest)
  end.

(** One [challenge] element. *)
Definition challenge_element (t : string) : list Token :=
  [StartTok challengeStart; CharData t; End challengeStart].

(** The tokens of one advertisement listing [types]. *)
Definition advertisement (start : StartElement) (types : list string) : list Token :=
  StartTok start
    :: concat (challenge_element <$> types)
    ++ [End start].

(** ** bind.go *)

(** [stanza.IQ] and its type attribute. *)
Record IQ : Type := mkIQ {
  ID : string;
  To : option JID;
  From : option JID;
  IQType : string
}.

Definition SetIQ : string := "set".
Definition ResultIQ : string := "result".
Definition ErrorIQ : string := "error".

Definition BadRequest : string := "bad-request".

Definition stream_BadFormat : error := StreamErr "bad-format".
Definition stream_UndefinedCondition : error := StreamErr "undefined-condition".

Record bindPayload : Type := mkBindPayload {
  Resource : string;
  BindJID : option JID
}.

Record bindIQ : Type := mkBindIQ {
  BIQ : IQ;
  Bind : bindPayload;
  Err : option StanzaError
}.

(** The zero values of the struct fields left out of a literal. *)
Definition zeroPayload : bindPayload := mkBindPayload "" None.

(** The server hook of [BindCustom]: [(j, err)] from the client JID and the
    requested resource. *)
Definition ServerFunc : Type := option JID -> string -> option JID * option error.

(** Code of other packages that [bind] calls. *)
Record Externals : Type := mkExternals {
  (** [ns.Client] *)
  ns_Client : string;
  (** the zero-argument [internal.RandomID()] that bind.go calls *)
  internal_RandomID : Entropy -> Outcome string;
  (** [internal.GetAttr(attrs, local)] *)
  internal_GetAttr : list Attr -> string -> string;
  (** [String()] of a JID *)
  jid_String : JID -> string;
  (** [Resourcepart()] of a JID pointer, possibly nil *)
  jid_Resourcepart : option JID -> Outcome string;
  (** [WithResource(resource)] of a JID pointer, possibly nil *)
  jid_WithResource : option JID -> string -> Outcome (option JID * option error);
  (** [stanza.WrapIQ(to, typ, payload)] *)
  stanza_WrapIQ : option JID -> string -> list Token -> list Token;
  (** [stanza.Error.TokenReader()] *)
  stanzaError_TokenReader : StanzaError -> list Token;
  (** [d.DecodeElement(&iq, &start)] for a [bindIQ]: the result and what is
      left of the input *)
  xml_DecodeElement :
    StartElement -> list (error + Token) -> (error + bindIQ) * list (error + Token)
}.

Section Bind.

Context (X : Externals).

(** [bindPayload.TokenReader]. *)
Definition bindPayload_TokenReader (bp : bindPayload) : list Token :=
  match BindJID bp with
  | Some j => Wrap [CharData (jid_String X j)] (mkStart (mkName "" "jid") [])
  | None => Wrap [CharData (Resource bp)] (mkStart (mkName "" "resource") [])
  end.

(** [bindIQ.TokenReader]. *)
Definition bindIQ_TokenReader (biq : bindIQ) : list Token :=
  match Err biq with
  | Some e =>
      stanza_WrapIQ X (To (BIQ biq)) (IQType (BIQ biq)) (stanzaError_TokenReader X e)
  | None =>
      stanza_WrapIQ X (To (BIQ biq)) (IQType (BIQ biq)) (bindPayload_TokenReader (Bind biq))
  end.

(** [bindIQ.WriteXML(session)]. *)
Definition bindIQ_WriteXML (biq : bindIQ) (session : Session)
    : Session * (nat * option error) :=
  let '(w, r) := Copy (conn session) (bindIQ_TokenReader biq) in
  (set_conn session w, r).

(** [d.Token()] on the decoder over the session. *)
Definition d_Token (session : Session) : (error + Token) * Session :=
  match input session with
  | [] => (inl io_EOF, session)
  | r :: rest => (r, set_input session rest)
  end.

(** [d.DecodeElement(&iq, &start)] on the decoder over the session. *)
Definition d_DecodeElement (start : StartElement) (session : Session)
    : (error + bindIQ) * Session :=
  let '(r, rest) := xml_DecodeElement X start (input session) in
  (r, set_input session rest).

(** [stanzaErr, ok := err.(stanza.Error)]. *)
Definition as_stanza_Error (err : option error) : StanzaError * bool :=
  match err with
  | Some (StanzaErr e) => (e, true)
  | _ => (mkStanzaError "" "", false)
  end.

(** The List function of the feature: [(req, err)] and the writer. *)
Definition bind_List (e : TokenWriter) (start : StartElement)
    : (bool * option error) * TokenWriter :=
  let req := true in
  and_then (EncodeToken e (StartTok start)) (fun e =>
  and_then (EncodeToken e (End start)) (fun e =>
  ((req, Flush e), e))
  (fun e err => ((req, Some err), e)))
  (fun e err => ((req, Some err), e)).

(** Lines 116-132 and 191-207: read one token and decode it as an iq. *)
Definition read_iq (session : Session) : (error + (StartElement * bindIQ)) * Session :=
  let '(tok, session) := d_Token session in
  match tok with
  | inl err => (inl err, session)
  | inr (StartTok start) =>
      if decide (ElName start = mkName (ns_Client X) "iq") then
        let '(r, session) := d_DecodeElement start session in
        match r with
        | inl err => (inl err, session)
        | inr iq => (inr (start, iq), session)
        end
      else (inl stream_BadFormat, session)
  | inr _ => (inl stream_BadFormat, session)
  end.

(** The Negotiate function of the feature returned by [bind(server)]: the
    results [(mask, rw, err)] and the session afterwards. *)
Definition bind_Negotiate (server : option ServerFunc) (rnd : Entropy)
    (session : Session) (data : iface) : Outcome (NegotiateResult * Session) :=
  let mask : SessionState := 0 in
  if bool_decide (Z.land (State session) Received = Received) then
    match read_iq session with
    | (inl err, session) => Returned ((mask, None, Some err), session)
    | (inr (start, resReq), session) =>
        let iqid := internal_GetAttr X (ElAttr start) "id" in
        '(j, err) ←
          match server with
          | Some f => Returned (f (RemoteAddr session) (Resource (Bind resReq)))
          | None =>
              id ← internal_RandomID X rnd;
              jid_WithResource X (RemoteAddr session) id
          end;
        let '(stanzaErr, ok) := as_stanza_Error err in
        if bool_decide (err ≠ None) && negb ok then
          Returned ((mask, None, err), session)
        else
          let resp := {|
            BIQ := {| ID := iqid;
                      From := To (BIQ resReq);
                      To := From (BIQ resReq);
                      IQType := ResultIQ |};
            Bind := zeroPayload;
            Err := None |} in
          let resp :=
            if ok then {| BIQ := BIQ resp; Bind := Bind resp; Err := Some stanzaErr |}
            else {| BIQ := BIQ resp;
                    Bind := {| Resource := ""; BindJID := j |};
                    Err := Err resp |} in
          let '(session, (_, err)) := bindIQ_WriteXML resp session in
          Returned ((mask, None, err), session)
    end
  else
    reqID ← internal_RandomID X rnd;
    res ← jid_Resourcepart X (origin session);
    let req := {|
      BIQ := {| ID := reqID; To := None; From := None; IQType := SetIQ |};
      Bind := {| Resource := res; BindJID := None |};
      Err := None |} in
    let '(session, (_, err)) := bindIQ_WriteXML req session in
    match err with
    | Some e => Returned ((mask, None, Some e), session)
    | None =>
        match read_iq session with
        | (inl err, session) => Returned ((mask, None, Some err), session)
        | (inr (start, resp), session) =>
            if bool_decide (ID (BIQ resp) ≠ reqID) then
              Returned ((mask, None, Some stream_UndefinedCondition), session)
            else if bool_decide (IQType (BIQ resp) = ResultIQ) then
              Returned ((Ready, None, None), set_origin session (BindJID (Bind resp)))
            else if bool_decide (IQType (BIQ resp) = ErrorIQ) then
              Returned ((mask, None, Some (StanzaErrPtr (Err resp))), session)
            else
              Returned ((mask, None, Some (StanzaErr (mkStanzaError "" BadRequest))), session)
        end
    end.

End Bind.

(** ** Stream features

    [StreamFeature], the struct the constructors fill in; [D] is what the
    Parse function decodes with. *)
Record StreamFeature (D : Type) : Type := mkFeature {
  FeatureName : Name;
  Necessary : SessionState;
  Prohibited : SessionState;
  List : TokenWriter -> StartElement -> (bool * option error) * TokenWriter;
  Parse : D -> StartElement -> bool * iface * option error;
  Negotiate : Entropy -> Session -> iface -> Outcome (NegotiateResult * Session)
}.

Arguments mkFeature {D}.
Arguments FeatureName {D}.
Arguments Necessary {D}.
Arguments Prohibited {D}.
Arguments List {D}.
Arguments Parse {D}.
Arguments Negotiate {D}.

Definition ns_Bind : string := "urn:ietf:params:xml:ns:xmpp-bind".

(** [DecodeElement] into the struct that only has an [XMLName]: an error
    or nothing. *)
Definition BindDecoder : Type := StartElement -> option error.

(** The Parse function of the bind feature. *)
Definition bind_Parse (d : BindDecoder) (start : StartElement)
    : bool * iface * option error :=
  (true, INil, d start).

(** [bind(server)]. *)
Definition bind (X : Externals) (server : option ServerFunc)
    : StreamFeature BindDecoder := {|
  FeatureName := mkName ns_Bind "bind";
  Necessary := Authn;
  Prohibited := Ready;
  List := bind_List;
  Parse := bind_Parse;
  Negotiate := bind_Negotiate X server
|}.

Definition BindResource (X : Externals) : StreamFeature BindDecoder :=
  bind X None.

Definition BindCustom (X : Externals) (server : option ServerFunc)
    : StreamFeature BindDecoder :=
  bind X server.

Definition NS : string := "urn:xmpp:register:0".

(** The Negotiate function of the registration features leaves the session
    as it is. *)
Definition ibr2_Negotiate (challenges : list Challenge) (rnd : Entropy)
    (session : Session) (supported : iface) : Outcome (NegotiateResult * Session) :=
  r ← negotiateFunc challenges session supported;
  Returned (r, session).

Definition Register (challenges : list Challenge) : StreamFeature ChallengeDecoder := {|
  FeatureName := {| Local_ := "register"; Space := NS |};
  Necessary := Secure;
  Prohibited := Authn;
  List := listFunc challenges;
  Parse := parseFunc challenges;
  Negotiate := ibr2_Negotiate challenges
|}.

Definition Recovery (challenges : list Challenge) : StreamFeature ChallengeDecoder := {|
  FeatureName := {| Local_ := "recovery"; Space := NS |};
  Necessary := Secure;
  Prohibited := Authn;
  List := listFunc challenges;
  Parse := parseFunc challenges;
  Negotiate := ibr2_Negotiate challenges
|}.

(** ** Sample collaborators and sessions for the examples *)

(** [internal.GetAttr]: the value of the first attribute with that local
    name, or the empty string. *)
Fixpoint GetAttr (attr : list Attr) (local : string) : string :=
  match attr with
  | [] => ""
  | a :: rest =>
      if decide (Local_ (AttrName a) = local) then Value a else GetAttr rest local
  end.

Fixpoint split_at (c : ascii) (s : string) : string * option string :=
  match s with
  | EmptyString => (EmptyString, None)
  | String a s' =>
      if decide (a = c) then (EmptyString, Some s')
      else let '(h, t) := split_at c s' in (String a h, t)
  end.

(** [local@domain/resource]. *)
Definition JID_String (j : JID) : string :=
  ((if decide (localpart j = "") then "" else localpart j +:+ "@")
   +:+ domainpart j
   +:+ (if decide (resourcepart j = "") then "" else "/" +:+ resourcepart j))%string.

Definition JID_parse (s : string) : JID :=
  let '(bare, res) := split_at "/" s in
  match split_at "@" bare with
  | (l, Some d) => mkJID l d (default "" res)
  | (d, None) => mkJID "" d (default "" res)
  end.

(** A decoder for the examples: attributes from the start element, the
    text of the [resource] and [jid] children, up to the end of the iq. *)
Fixpoint decode_children (inp : list (error + Token)) (depth : nat)
    (inside : string) (iq : bindIQ) : (error + bindIQ) * list (error + Token) :=
  match inp with
  | [] => (inl io_EOF, [])
  | inl err :: rest => (inl err, rest)
  | inr (StartTok s) :: rest =>
      decode_children rest (S depth) (Local_ (ElName s)) iq
  | inr (EndTok _) :: rest =>
      match depth with
      | O => (inr iq, rest)
      | S depth' => decode_children rest depth' "" iq
      end
  | inr (CharData text) :: rest =>
      let payload :=
        if decide (inside = "resource") then mkBindPayload text (BindJID (Bind iq))
        else if decide (inside = "jid")
             then mkBindPayload (Resource (Bind iq)) (Some (JID_parse text))
             else Bind iq in
      decode_children rest depth inside (mkBindIQ (BIQ iq) payload (Err iq))
  | inr (OtherTok _) :: rest => decode_children rest depth inside iq
  end.

Definition opt_jid (s : string) : option JID :=
  if decide (s = "") then None else Some (JID_parse s).

Definition sample_DecodeElement (start : StartElement) (inp : list (error + Token))
    : (error + bindIQ) * list (error + Token) :=
  let a := ElAttr start in
  decode_children inp 0 ""
    (mkBindIQ (mkIQ (GetAttr a "id") (opt_jid (GetAttr a "to"))
                 (opt_jid (GetAttr a "from")) (GetAttr a "type"))
       zeroPayload None).

Definition attr (local value : string) : Attr := mkAttr (mkName "" local) value.

Definition sample_WrapIQ (to : option JID) (typ : string) (payload : list Token)
    : list Token :=
  Wrap payload
    (mkStart (mkName "" "iq")
       (attr "type" typ ::
        match to with Some j => [attr "to" (JID_String j)] | None => [] end)).

Definition sample_Error_TokenReader (e : StanzaError) : list Token :=
  Wrap (Wrap [] (mkStart (mkName "urn:ietf:params:xml:ns:xmpp-stanzas" (Condition e)) []))
    (mkStart (mkName "" "error") [attr "type" (ErrType e)]).

Definition sample : Externals := {|
  ns_Client := "jabber:client";
  internal_RandomID := fun rnd => RandomID rnd 16;
  internal_GetAttr := GetAttr;
  jid_String := JID_String;
  jid_Resourcepart := fun j => Returned (from_option resourcepart "" j);
  jid_WithResource := fun j r =>
    match j with
    | Some j => Returned (Some (mkJID (localpart j) (domainpart j) r), None)
    | None => Panicked (PanicRuntime "nil pointer dereference")
    end;
  stanza_WrapIQ := sample_WrapIQ;
  stanzaError_TokenReader := sample_Error_TokenReader;
  xml_DecodeElement := sample_DecodeElement
|}.

Definition iq_name : Name := mkName "jabber:client" "iq".
Definition bind_name : Name := mkName "urn:ietf:params:xml:ns:xmpp-bind" "bind".

(** [<iq id=.. type=..><bind><child>text</child></bind></iq>] *)
Definition iq_tokens (id typ child text : string) : list (error + Token) :=
  inr <$> [StartTok (mkStart iq_name [attr "id" id; attr "type" typ]);
           StartTok (mkStart bind_name []);
           StartTok (mkStart (mkName "" child) []);
           CharData text;
           EndTok (mkName "" child);
           EndTok bind_name;
           EndTok iq_name].

Definition zero_pool : Entropy := Avail (fun _ => Byte.x00).

Definition user_jid : JID := mkJID "user" "example.com" "".

Definition server_session (inp : list (error + Token)) : Session :=
  mkSession (Z.lor (Z.lor Secure Authn) Received) (Some user_jid) (Some user_jid)
    inp (reliable []).

Definition client_session_reading (inp : list (error + Token)) : Session :=
  mkSession (Z.lor Secure Authn) (Some (mkJID "user" "example.com" "home")) None
    inp (reliable []).

Definition sample_challenges : list Challenge :=
  [mkChallenge "form"; mkChallenge "oob"; mkChallenge "form";
   mkChallenge "captcha"; mkChallenge "oob"].

Definition register_start : StartElement :=
  mkStart (mkName "urn:xmpp:register:0" "register") [].

Definition client_session : Session := client_session_reading [].

Definition message_start : StartElement :=
  mkStart (mkName "jabber:client" "message") [attr "id" "X"].

Definition conflict : StanzaError := mkStanzaError "cancel" "conflict".

Definition refuse_all : ServerFunc := fun _ _ => (None, Some (StanzaErr conflict)).

(** A connection that refuses every token with [err]. *)
Definition broken (err : error) : TokenWriter :=
  mkWriter [] (fun _ _ => Some err) (fun _ => Some err).

(** A connection that accepts [k] more tokens and then refuses with [err]. *)
Definition closing_after (k : nat) (err : error) : TokenWriter :=
  mkWriter [] (fun h _ => if (length h <? k)%nat then None else Some err)
    (fun _ => None).

Definition broken_pipe : error := ErrorString "broken pipe".

(** A connection that takes every token and then fails to flush. *)
Definition stalled (err : error) : TokenWriter :=
  mkWriter [] (fun _ _ => None) (fun _ => Some err).

Definition duplicated_local : list Challenge :=
  [mkChallenge "form"; mkChallenge "form"].

(** An allocator that grants the requested resource. *)
Definition grant_requested : ServerFunc := fun j r =>
  (Some (mkJID (from_option localpart "" j) (from_option domainpart "" j) r), None).

Definition truncated : error := ErrorString "unexpected EOF".

(** * Properties *)

(** ** [internal.RandomID] *)

Section RandomIDFacts.

Lemma hexdigit_lower (k : N) : is_lower_hex (hexdigit k) = true.
Proof.
  unfold hexdigit.
  generalize (N.to_nat k); intros i.
  do 17 (destruct i as [|i]; [reflexivity|]).
  reflexivity.
Qed.

Lemma sprintf_x_length (b : list Byte.byte) :
  String.length (sprintf_x b) = (2 * length b)%nat.
Proof.
  induction b as [|x b IH]; simpl; [reflexivity|].
  rewrite IH. lia.
Qed.

Lemma sprintf_x_lower (b : list Byte.byte) :
  all_chars is_lower_hex (sprintf_x b) = true.
Proof.
  induction b as [|x b IH]; simpl; [reflexivity|].
  rewrite !hexdigit_lower, IH. reflexivity.
Qed.

Lemma substring_prefix_length (s : string) (n : nat) :
  (n <= String.length s)%nat -> String.length (substring 0 n s) = n.
Proof.
  revert n; induction s as [|c s IH]; intros [|n] Hn; simpl in *;
    try reflexivity; try lia.
  rewrite IH; [reflexivity | lia].
Qed.

Lemma substring_prefix_all (p : ascii -> bool) (s : string) (n : nat) :
  all_chars p s = true -> all_chars p (substring 0 n s) = true.
Proof.
  revert n; induction s as [|c s IH]; intros [|n] Hs; simpl in *;
    try reflexivity.
  apply andb_prop in Hs as [Hc Hs].
  rewrite Hc, IH; auto.
Qed.

Lemma rand_Read_length (pool : nat -> Byte.byte) (len : nat) (b : list Byte.byte) :
  rand_Read (Avail pool) len = inr b -> length b = len.
Proof.
  simpl. intros [= <-]. rewrite length_map. apply length_seq.
Qed.

(** The buffer of [(n/2)+(n&1)] bytes prints to at least [n] digits. *)
Lemma buffer_covers (n : Z) :
  0 <= n -> 0 <= Z.quot n 2 + Z.land n 1 /\ n <= 2 * (Z.quot n 2 + Z.land n 1).
Proof.
  intros Hn.
  rewrite Z.quot_div_nonneg by lia.
  change 1 with (Z.ones 1). rewrite Z.land_ones by lia.
  change (2 ^ 1) with 2.
  pose proof (Z.div_mod n 2 ltac:(lia)).
  pose proof (Z.mod_pos_bound n 2 ltac:(lia)).
  lia.
Qed.

End RandomIDFacts.

(** C9: for a non-negative length [n], [RandomID(n)] returns, when the
    entropy pool serves bytes, a string of exactly [n] characters, all of
    them lowercase hexadecimal digits; whenever reading the pool fails with
    [e] it panics with [e] and returns nothing, and a pool that cannot
    serve bytes does fail the read for every positive [n].  (For [n = 0]
    nothing is read, so no read can fail.) *)
Theorem RandomID_hex_of_length (n : Z) (Hn : 0 <= n) :
  (forall pool, exists s,
      RandomID (Avail pool) n = Returned s
      /\ String.length s = Z.to_nat n
      /\ all_chars is_lower_hex s = true)
  /\ (forall rnd e,
        rand_Read rnd (Z.to_nat (Z.quot n 2 + Z.land n 1)) = inl e ->
        RandomID rnd n = Panicked (PanicError e))
  /\ (forall e, 0 < n -> RandomID (Unavail e) n = Panicked (PanicError e)).
Proof.
  destruct (buffer_covers n Hn) as [Hlen Hcov].
  split; [|split].
  - intros pool. unfold RandomID.
    destruct (Z.ltb_spec (Z.quot n 2 + Z.land n 1) 0) as [?|_]; [lia|].
    destruct (rand_Read (Avail pool) _) as [err|b] eqn:Hread; [discriminate|].
    apply rand_Read_length in Hread.
    pose proof (sprintf_x_length b) as Hs.
    destruct (Z.ltb_spec n 0) as [?|_]; [lia|].
    destruct (Z.ltb_spec (Z.of_nat (String.length (sprintf_x b))) n) as [?|Hfit];
      [lia|]. simpl.
    eexists; split; [reflexivity|]. split.
    + apply substring_prefix_length. lia.
    + apply substring_prefix_all, sprintf_x_lower.
  - intros rnd e Hread. unfold RandomID.
    destruct (Z.ltb_spec (Z.quot n 2 + Z.land n 1) 0) as [?|_]; [lia|].
    by rewrite Hread.
  - intros e Hpos. unfold RandomID.
    destruct (Z.ltb_spec (Z.quot n 2 + Z.land n 1) 0) as [?|_]; [lia|].
    destruct (Z.to_nat (Z.quot n 2 + Z.land n 1)) as [|k] eqn:Hk; [lia|].
    reflexivity.
Qed.

Lemma RandomID_hex_of_length_witness :
  0 <= 5 /\
  (forall pool, exists s,
      RandomID (Avail pool) 5 = Returned s
      /\ String.length s = Z.to_nat 5
      /\ all_chars is_lower_hex s = true)
  /\ (forall rnd e,
        rand_Read rnd (Z.to_nat (Z.quot 5 2 + Z.land 5 1)) = inl e ->
        RandomID rnd 5 = Panicked (PanicError e))
  /\ (forall e, 0 < 5 -> RandomID (Unavail e) 5 = Panicked (PanicError e)).
Proof. split; [lia | apply (RandomID_hex_of_length 5); lia]. Defined.

(** With nothing to read there is nothing that can fail: the empty
    identifier is returned even when the pool cannot serve bytes. *)
Example RandomID_zero (rnd : Entropy) : RandomID rnd 0 = Returned "".
Proof. by destruct rnd. Qed.

Example RandomID_sample :
  RandomID (Avail (fun i => match i with O => Byte.xab | 1%nat => Byte.x0f | _ => Byte.x7c end)) 5
  = Returned "ab0f7".
Proof. reflexivity. Qed.

Example RandomID_negative : exists p, RandomID (Avail (fun _ => Byte.x00)) (-1) = Panicked p.
Proof. eexists. reflexivity. Qed.

(** ** ibr2: the advertised challenge list *)

Section FirstSeen.

Implicit Types (types : list string) (seen : gset string).

Lemma first_seen_elem_of types (t : string) :
  t ∈ first_seen types ↔ t ∈ types.
Proof.
  induction types as [|u rest IH]; simpl; [done|].
  rewrite !elem_of_cons, list_elem_of_filter, IH.
  destruct (decide (t = u)); naive_solver.
Qed.

Lemma first_seen_NoDup types : NoDup (first_seen types).
Proof.
  induction types as [|u rest IH]; simpl; [constructor|].
  constructor.
  - rewrite list_elem_of_filter. naive_solver.
  - by apply NoDup_filter.
Qed.

(** The loop's view: with the set [seen] already emitted, what remains to
    emit from [t :: rest]. *)
Lemma first_seen_unseen_cons seen (t : string) types :
  filter (fun u => u ∉ seen) (first_seen (t :: types)) =
    if decide (t ∈ seen) then filter (fun u => u ∉ seen) (first_seen types)
    else t :: filter (fun u => u ∉ {[t]} ∪ seen) (first_seen types).
Proof.
  simpl. destruct (decide (t ∈ seen)) as [Hin|Hout].
  - rewrite filter_cons_False by (intros ?; done).
    rewrite list_filter_filter. apply list_filter_iff.
    intros u. split; [naive_solver|]. intros Hu. split; [done|].
    intros ->. done.
  - rewrite filter_cons_True by done. f_equal.
    rewrite list_filter_filter. apply list_filter_iff.
    intros u. set_solver.
Qed.

Lemma filter_unseen_empty seen types :
  seen = ∅ -> filter (fun u => u ∉ seen) types = types.
Proof.
  intros ->. induction types as [|u rest IH]; [done|].
  rewrite filter_cons_True by set_solver. by rewrite IH.
Qed.

(** First-seen order: whenever [x] comes before [y] in the output, the
    input has an occurrence of [x] that no occurrence of [y] precedes. *)
Lemma first_seen_unseen_order seen types (l1 l2 l3 : list string) (x y : string) :
  filter (fun u => u ∉ seen) (first_seen types) = l1 ++ x :: l2 ++ y :: l3 ->
  exists p s, types = p ++ x :: s /\ (y ∉ p) /\ x ≠ y.
Proof.
  revert seen l1. induction types as [|t rest IH]; intros seen l1 Hout.
  - simpl in Hout. rewrite filter_nil in Hout. by destruct l1.
  - assert (Hy : y ∈ filter (fun u => u ∉ seen) (first_seen (t :: rest))).
    { rewrite Hout. set_solver. }
    rewrite first_seen_unseen_cons in Hout, Hy.
    destruct (decide (t ∈ seen)) as [Hin|Hnew].
    + destruct (IH _ _ Hout) as (p & s & -> & Hp & Hne).
      exists (t :: p), s. split; [done|]. split; [|done].
      apply list_elem_of_filter in Hy as [Hy _].
      rewrite not_elem_of_cons. split; [|done]. by intros ->.
    + destruct l1 as [|t' l1]; injection Hout as -> Hout.
      * exists [], rest. split; [done|].
        assert (y ∈ filter (fun u => u ∉ {[x]} ∪ seen) (first_seen rest)) as Hy'.
        { rewrite Hout. set_solver. }
        apply list_elem_of_filter in Hy' as [Hy' _].
        split; set_solver.
      * destruct (IH _ _ Hout) as (p & s & -> & Hp & Hne).
        exists (t' :: p), s. split; [done|]. split; [|done].
        assert (y ∈ filter (fun u => u ∉ {[t']} ∪ seen)
                  (first_seen (p ++ x :: s))) as Hy'.
        { rewrite Hout. set_solver. }
        apply list_elem_of_filter in Hy' as [Hy' _].
        rewrite not_elem_of_cons. split; [set_solver|done].
Qed.

Lemma first_seen_order types (l1 l2 l3 : list string) (x y : string) :
  first_seen types = l1 ++ x :: l2 ++ y :: l3 ->
  exists p s, types = p ++ x :: s /\ (y ∉ p) /\ x ≠ y.
Proof.
  intros H. apply (first_seen_unseen_order ∅ types l1 l2 l3).
  by rewrite filter_unseen_empty.
Qed.

End FirstSeen.

Section ListFunc.

Lemma EncodeToken_ok (e e' : TokenWriter) (t : Token) :
  EncodeToken e t = (e', None) ->
  written e' = written e ++ [t]
  /\ refuses e' = refuses e /\ flush_refuses e' = flush_refuses e.
Proof.
  unfold EncodeToken. destruct (refuses e (written e) t); intros [= <-]; done.
Qed.

Lemma EncodeToken_reliable (out : list Token) (t : Token) :
  EncodeToken (reliable out) t = (reliable (out ++ [t]), None).
Proof. reflexivity. Qed.

(** A loop that ends without error has appended, for the types not yet in
    [seen], one element each, in first-seen order. *)
Lemma listLoop_written (challenges : list Challenge) (seen : gset string)
    (e e' : TokenWriter) :
  listLoop challenges seen e = (e', None) ->
  written e' = written e ++
    concat (challenge_element <$>
      filter (fun u => u ∉ seen) (first_seen (ChallengeType <$> challenges))).
Proof.
  revert seen e. induction challenges as [|c rest IH]; intros seen e Hloop.
  - simpl in *. injection Hloop as <-. by rewrite app_nil_r.
  - rewrite fmap_cons, first_seen_unseen_cons. simpl in Hloop.
    destruct (decide (ChallengeType c ∈ seen)) as [Hin|Hnew]; [by apply IH|].
    unfold and_then in Hloop.
    destruct (EncodeToken e _) as [e1 [err|]] eqn:H1; [done|].
    destruct (EncodeToken e1 _) as [e2 [err|]] eqn:H2; [done|].
    destruct (EncodeToken e2 _) as [e3 [err|]] eqn:H3; [done|].
    apply EncodeToken_ok in H1 as (W1 & _), H2 as (W2 & _), H3 as (W3 & _).
    rewrite (IH _ _ Hloop), W3, W2, W1, fmap_cons. simpl.
    by rewrite <- !app_assoc.
Qed.

Lemma listLoop_reliable (challenges : list Challenge) (seen : gset string)
    (out : list Token) :
  exists out', listLoop challenges seen (reliable out) = (reliable out', None).
Proof.
  revert seen out. induction challenges as [|c rest IH]; intros seen out.
  - by eexists.
  - cbn [listLoop]. destruct (decide (ChallengeType c ∈ seen)); [apply IH|].
    do 3 (rewrite EncodeToken_reliable; cbn [and_then]). apply IH.
Qed.

Lemma listFunc_written (challenges : list Challenge) (e e' : TokenWriter)
    (start : StartElement) (req : bool) :
  listFunc challenges e start = ((req, None), e') ->
  written e' = written e ++
    advertisement start (first_seen (ChallengeType <$> challenges)).
Proof.
  unfold listFunc, and_then. intros Hlist.
  destruct (EncodeToken e _) as [e1 [err|]] eqn:H1; [done|].
  destruct (listLoop _ _ e1) as [e2 [err|]] eqn:H2; [done|].
  destruct (EncodeToken e2 _) as [e3 [err|]] eqn:H3; [done|].
  injection Hlist as _ _ <-.
  apply EncodeToken_ok in H1 as (W1 & _), H3 as (W3 & _).
  apply listLoop_written in H2.
  rewrite filter_unseen_empty in H2 by done.
  rewrite W3, H2, W1. unfold advertisement, challenge_element. simpl.
  by rewrite <- !app_assoc.
Qed.

(** On an encoder that refuses nothing, [listFunc] returns without error. *)
Lemma listFunc_reliable (challenges : list Challenge) (out : list Token)
    (start : StartElement) :
  exists out', listFunc challenges (reliable out) start
               = ((false, None), reliable out').
Proof.
  unfold listFunc. rewrite EncodeToken_reliable. cbn [and_then].
  destruct (listLoop_reliable challenges ∅ (out ++ [StartTok start])) as [o ->].
  cbn [and_then]. rewrite EncodeToken_reliable. cbn [and_then]. by eexists.
Qed.

End ListFunc.

(** C6: whenever the List phase of the registration/recovery feature
    completes on a challenge list [challenges] (duplicates allowed), what it
    has appended to the encoder is the start element, one [challenge]
    element per entry of [out] and the end element, where [out] holds each
    type of [challenges] exactly once (no duplicates, same members) in
    first-seen order: if [x] precedes [y] in [out], then [challenges] has an
    occurrence of [x] with no [y] before it.  [out] is [first_seen] of the
    types. *)
Theorem listFunc_distinct_first_seen (challenges : list Challenge)
    (e e' : TokenWriter) (start : StartElement) (req : bool)
    (Hdone : listFunc challenges e start = ((req, None), e')) :
  let types := ChallengeType <$> challenges in
  exists out : list string,
    written e' = written e ++ advertisement start out
    /\ out = first_seen types
    /\ NoDup out
    /\ (forall t, t ∈ out ↔ t ∈ types)
    /\ (forall l1 x l2 y l3, out = l1 ++ x :: l2 ++ y :: l3 ->
          exists p s, types = p ++ x :: s /\ (y ∉ p) /\ x ≠ y).
Proof.
  intros types. exists (first_seen types).
  split; [by eapply listFunc_written|].
  split; [done|].
  split; [apply first_seen_NoDup|].
  split; [apply first_seen_elem_of|].
  intros l1 x l2 y l3. apply first_seen_order.
Qed.

Lemma listFunc_distinct_first_seen_witness :
  let e' := reliable (advertisement register_start ["form"; "oob"; "captcha"]) in
  listFunc sample_challenges (reliable []) register_start = ((false, None), e')
  /\ exists out : list string,
      written e' = written (reliable []) ++ advertisement register_start out
      /\ out = first_seen (ChallengeType <$> sample_challenges)
      /\ NoDup out
      /\ (forall t, t ∈ out ↔ t ∈ ChallengeType <$> sample_challenges)
      /\ (forall l1 x l2 y l3, out = l1 ++ x :: l2 ++ y :: l3 ->
            exists p s, ChallengeType <$> sample_challenges = p ++ x :: s
                        /\ (y ∉ p) /\ x ≠ y).
Proof.
  intros e'.
  assert (Hdone : listFunc sample_challenges (reliable []) register_start
                  = ((false, None), e')) by reflexivity.
  split; [exact Hdone|].
  exact (listFunc_distinct_first_seen sample_challenges (reliable []) e'
           register_start false Hdone).
Defined.

(** ** ibr2: the compatibility gate *)

Section ParseFunc.

Lemma foldl_insert_types {A : Type} (f : A -> string) (l : list A) (m : gset string) :
  foldl (fun m c => {[f c]} ∪ m) m l = list_to_set (f <$> l) ∪ m.
Proof.
  revert m. induction l as [|a l IH]; intros m; simpl.
  - set_solver.
  - rewrite IH. set_solver.
Qed.

(** The map [m] built by [parseFunc] is the union of both type lists. *)
Lemma parseFunc_map (challenges : list Challenge) (parsed : list string) :
  foldl (fun m c => {[c]} ∪ m)
    (foldl (fun m c => {[ChallengeType c]} ∪ m) (∅ : gset string) challenges) parsed
  = list_to_set (ChallengeType <$> challenges) ∪ list_to_set parsed.
Proof.
  rewrite (foldl_insert_types ChallengeType).
  rewrite <- (list_fmap_id parsed) at 1.
  rewrite (foldl_insert_types id). rewrite list_fmap_id. set_solver.
Qed.

(** Without duplicates among the local types the gate is inclusion. *)
Lemma gate_is_inclusion (local peer : list string) :
  NoDup local ->
  (size (list_to_set local ∪ list_to_set peer : gset string) <= length local)%nat
  ↔ peer ⊆ local.
Proof.
  intros Hnd. rewrite <- (size_list_to_set (C := gset string) local Hnd).
  split.
  - intros Hsize.
    assert (list_to_set local ≡@{gset string} list_to_set local ∪ list_to_set peer)
      as Heq by (apply set_subseteq_size_equiv; [set_solver|done]).
    intros t Ht. set_solver.
  - intros Hsub. apply subseteq_size. set_solver.
Qed.

End ParseFunc.

(** What Parse computes: "supported" is reported exactly when the
    deduplicated union of the types of [L] and the peer's advertised types
    [P] has at most [len(L)] members, [len(L)] counting the entries of the
    list [L], repeated ones included; an unsupported peer gives no error,
    and an error is returned only when decoding failed. *)
Theorem parseFunc_gate (L : list Challenge) (d : ChallengeDecoder)
    (start : StartElement) :
  match d start with
  | inr P =>
      exists supported : bool,
        parseFunc L d start = (false, IBool supported, None)
        /\ (supported = true ↔
            (size (list_to_set (ChallengeType <$> L) ∪ list_to_set P : gset string)
             <= length L)%nat)
  | inl err => parseFunc L d start = (false, IBool false, Some err)
  end.
Proof.
  unfold parseFunc. destruct (d start) as [err|P]; [reflexivity|].
  eexists. split; [reflexivity|].
  rewrite parseFunc_map. apply Nat.leb_le.
Qed.

(** X20: when the local list has no duplicate types, the gate says that
    every advertised type is supported locally. *)
Lemma parseFunc_subset (L : list Challenge) (d : ChallengeDecoder)
    (start : StartElement) (P : list string) :
  NoDup (ChallengeType <$> L) -> d start = inr P ->
  parseFunc L d start = (false, IBool (bool_decide (P ⊆ ChallengeType <$> L)), None).
Proof.
  intros Hnd Hd. unfold parseFunc. rewrite Hd, parseFunc_map.
  do 2 f_equal. f_equal. apply Bool.eq_iff_eq_true.
  rewrite Nat.leb_le, bool_decide_eq_true, <- (length_fmap ChallengeType).
  by apply gate_is_inclusion.
Qed.

(** With a type listed twice locally the count [len(L)] exceeds the number
    of local types, and a peer asking for a type that is not supported
    passes the gate. *)
Example parseFunc_duplicate_local :
  parseFunc [mkChallenge "form"; mkChallenge "form"] (fun _ => inr ["oob"])
    register_start
  = (false, IBool true, None).
Proof. reflexivity. Qed.

(** C3: the gate of the claim compares the union of the two sets of types
    with the set of local types; the code compares it with the number of
    entries of the local list.  With the local list [form, form] and the
    peer advertising [oob], Parse reports "supported" (and no error)
    although the union has more types than the local side supports and
    [oob] is not a local type. *)
Theorem parseFunc_gate_counts_entries :
  let types := ChallengeType <$> duplicated_local in
  parseFunc duplicated_local (fun _ => inr ["oob"]) register_start
    = (false, IBool true, None)
  /\ (size (list_to_set types : gset string)
       < size (list_to_set types ∪ list_to_set ["oob"] : gset string))%nat
  /\ ¬ (["oob"] ⊆ types).
Proof.
  split; [reflexivity|]. split.
  - cbn [duplicated_local fmap list_fmap ChallengeType list_to_set foldr].
    assert ({[ "form" ]} ∪ ({[ "form" ]} ∪ ∅) = ({[ "form" ]} : gset string))
      as -> by set_solver.
    rewrite size_union by set_solver.
    rewrite size_singleton.
    assert ({[ "oob" ]} ∪ ∅ = ({[ "oob" ]} : gset string)) as -> by set_solver.
    rewrite size_singleton. lia.
  - intros Hsub. specialize (Hsub "oob"). cbn in Hsub. set_solver.
Qed.

(** C10: Parse never reports the feature as mandatory: the [req] result is
    false whatever the local list and whatever the decoder answered. *)
Theorem parseFunc_never_required (L : list Challenge) (d : ChallengeDecoder)
    (start : StartElement) :
  (parseFunc L d start).1.1 = false.
Proof. unfold parseFunc. by destruct (d start). Qed.

(** ** ibr2: Negotiate *)

(** C8: on the initiating side (the [Received] bit is not set), when Parse
    reported the peer as unsupported, Negotiate returns a zero mask, no
    replacement transport and no error. *)
Theorem negotiateFunc_skips_unsupported (L : list Challenge) (session : Session)
    (Hclient : Z.land (State session) Received ≠ Received) :
  negotiateFunc L session (IBool false) = Returned (0, None, None).
Proof.
  unfold negotiateFunc. by rewrite bool_decide_eq_false_2.
Qed.

Lemma negotiateFunc_skips_unsupported_witness :
  Z.land (State client_session) Received ≠ Received
  /\ negotiateFunc sample_challenges client_session (IBool false)
     = Returned (0, None, None).
Proof.
  split; [|apply (negotiateFunc_skips_unsupported sample_challenges client_session)];
    vm_compute; discriminate.
Defined.

(** X23: in every other case (on the receiving side, or when Parse did not
    report "unsupported") the feature is not implemented and panics. *)
Lemma negotiateFunc_otherwise_panics (L : list Challenge) (session : Session)
    (supported : iface) :
  Z.land (State session) Received = Received \/ supported ≠ IBool false ->
  exists p, negotiateFunc L session supported = Panicked p.
Proof.
  unfold negotiateFunc. intros [Hsrv|Hsup].
  - rewrite bool_decide_eq_true_2 by done. by eexists.
  - case_bool_decide; [by eexists|].
    destruct supported as [| [|] |]; simpl; try done; by eexists.
Qed.

(** ** bind.go: Negotiate *)

Section BindFacts.

Context (X : Externals).

Abbreviation iq_element := (mkName (ns_Client X) "iq").

Lemma read_iq_rejects (session : Session) (tok : Token) (rest : list (error + Token)) :
  input session = inr tok :: rest ->
  (forall start, tok = StartTok start -> ElName start ≠ iq_element) ->
  read_iq X session = (inl stream_BadFormat, set_input session rest).
Proof.
  intros Hin Hbad. unfold read_iq, d_Token. rewrite Hin.
  destruct tok as [start| | |]; try reflexivity.
  destruct (decide (ElName start = iq_element)) as [Heq|]; [|reflexivity].
  by destruct (Hbad start eq_refl).
Qed.

Lemma read_iq_decodes (session : Session) (start : StartElement)
    (rest rest' : list (error + Token)) (iq : bindIQ) :
  input session = inr (StartTok start) :: rest ->
  ElName start = iq_element ->
  xml_DecodeElement X start rest = (inr iq, rest') ->
  read_iq X session = (inr (start, iq), set_input session rest').
Proof.
  intros Hin Hname Hdec. unfold read_iq, d_Token, d_DecodeElement. rewrite Hin.
  rewrite decide_True by done. simpl. by rewrite Hdec.
Qed.

Lemma Copy_reliable (out r : list Token) :
  Copy (reliable out) r = (reliable (out ++ r), (length r, None)).
Proof.
  revert out. induction r as [|t r IH]; intros out; cbn [Copy].
  - by rewrite app_nil_r.
  - rewrite EncodeToken_reliable, IH. cbn [length]. by rewrite <- app_assoc.
Qed.

(** A writer that refuses no token takes the whole reader; the error
    returned is then the result of the final flush. *)
Lemma Copy_accepted (w : TokenWriter) (r : list Token) :
  (forall h t, refuses w h t = None) ->
  exists w', Copy w r = (w', (length r, flush_refuses w (written w ++ r)))
             /\ written w' = written w ++ r.
Proof.
  revert w. induction r as [|t r IH]; intros w Hok; simpl.
  - exists w. by rewrite app_nil_r.
  - unfold EncodeToken. rewrite Hok.
    destruct (IH (mkWriter (written w ++ [t]) (refuses w) (flush_refuses w)) Hok)
      as (w' & -> & Hw').
    exists w'. cbn [written flush_refuses] in *. rewrite Hw', <- !app_assoc.
    done.
Qed.

(** Writing touches nothing of the session but the connection. *)
Lemma bindIQ_WriteXML_session (biq : bindIQ) (session session' : Session)
    (r : nat * option error) :
  bindIQ_WriteXML X biq session = (session', r) ->
  exists w, Copy (conn session) (bindIQ_TokenReader X biq) = (w, r)
            /\ session' = set_conn session w.
Proof.
  unfold bindIQ_WriteXML.
  destruct (Copy _ _) as [w r0]. intros [= <- <-]. by exists w.
Qed.

(** The identifier and the sender of a [bindIQ] never reach its tokens. *)
Lemma bindIQ_TokenReader_ignores_ID (id id' : string) (to from from' : option JID)
    (typ : string) (bp : bindPayload) (e : option StanzaError) :
  bindIQ_TokenReader X (mkBindIQ (mkIQ id to from typ) bp e)
  = bindIQ_TokenReader X (mkBindIQ (mkIQ id' to from' typ) bp e).
Proof. reflexivity. Qed.

End BindFacts.

Section BindClaims.

Context (X : Externals).

Abbreviation iq_element := (mkName (ns_Client X) "iq").

(** The request the client writes. *)
Abbreviation request reqID res :=
  (mkBindIQ (mkIQ reqID None None SetIQ) (mkBindPayload res None) None).

(** C7: on the receiving side, when the token read from the stream is not a
    start element, or is a start element whose name is not the iq element
    of the client namespace, Negotiate returns [stream.BadFormat] with a zero
    mask and the connection is as before: nothing has been written. *)
Theorem bind_server_rejects_non_iq (server : option ServerFunc) (rnd : Entropy)
    (session : Session) (data : iface) (tok : Token) (rest : list (error + Token))
    (Hsrv : Z.land (State session) Received = Received)
    (Hin : input session = inr tok :: rest)
    (Hbad : forall start, tok = StartTok start -> ElName start ≠ iq_element) :
  exists session',
    bind_Negotiate X server rnd session data
      = Returned ((0, None, Some stream_BadFormat), session')
    /\ conn session' = conn session
    /\ written (conn session') = written (conn session).
Proof.
  exists (set_input session rest).
  unfold bind_Negotiate. rewrite bool_decide_eq_true_2 by done.
  by rewrite (read_iq_rejects X session tok rest Hin Hbad).
Qed.

(** C1: on the initiating side, once the request with the generated
    identifier [reqID] has been written and flushed without error and an
    iq has been received whose
    [id] differs from [reqID], Negotiate returns
    [stream.UndefinedCondition] with a zero mask, and the session's
    [origin] is what it was before the call. *)
Theorem bind_client_id_mismatch (server : option ServerFunc) (rnd : Entropy)
    (session session1 : Session) (data : iface) (reqID res : string) (n : nat)
    (start : StartElement) (rest rest' : list (error + Token)) (resp : bindIQ)
    (Hcli : Z.land (State session) Received ≠ Received)
    (Hid : internal_RandomID X rnd = Returned reqID)
    (Hres : jid_Resourcepart X (origin session) = Returned res)
    (Hwr : bindIQ_WriteXML X (request reqID res) session = (session1, (n, None)))
    (Hin : input session = inr (StartTok start) :: rest)
    (Hname : ElName start = iq_element)
    (Hdec : xml_DecodeElement X start rest = (inr resp, rest'))
    (Hne : ID (BIQ resp) ≠ reqID) :
  exists session',
    bind_Negotiate X server rnd session data
      = Returned ((0, None, Some stream_UndefinedCondition), session')
    /\ origin session' = origin session.
Proof.
  exists (set_input session1 rest').
  destruct (bindIQ_WriteXML_session X _ _ _ _ Hwr) as (w & _ & ->).
  unfold bind_Negotiate. rewrite bool_decide_eq_false_2 by done.
  rewrite Hid. simpl. rewrite Hres. simpl. rewrite Hwr.
  rewrite (read_iq_decodes X _ start rest rest' resp) by done.
  by rewrite bool_decide_eq_true_2 by done.
Qed.

(** C2: on the initiating side, once the request has been written and
    flushed without error and an iq with the request's [id] and type
    [result] has been received, Negotiate
    returns the mask [Ready] and no error, and the session's [origin] is
    the JID of the received bind payload, whatever it is. *)
Theorem bind_client_result (server : option ServerFunc) (rnd : Entropy)
    (session session1 : Session) (data : iface) (reqID res : string) (n : nat)
    (start : StartElement) (rest rest' : list (error + Token)) (resp : bindIQ)
    (Hcli : Z.land (State session) Received ≠ Received)
    (Hid : internal_RandomID X rnd = Returned reqID)
    (Hres : jid_Resourcepart X (origin session) = Returned res)
    (Hwr : bindIQ_WriteXML X (request reqID res) session = (session1, (n, None)))
    (Hin : input session = inr (StartTok start) :: rest)
    (Hname : ElName start = iq_element)
    (Hdec : xml_DecodeElement X start rest = (inr resp, rest'))
    (Hsame : ID (BIQ resp) = reqID)
    (Htype : IQType (BIQ resp) = ResultIQ) :
  exists session',
    bind_Negotiate X server rnd session data
      = Returned ((Ready, None, None), session')
    /\ origin session' = BindJID (Bind resp).
Proof.
  exists (set_origin (set_input session1 rest') (BindJID (Bind resp))).
  destruct (bindIQ_WriteXML_session X _ _ _ _ Hwr) as (w & _ & ->).
  unfold bind_Negotiate. rewrite bool_decide_eq_false_2 by done.
  rewrite Hid. simpl. rewrite Hres. simpl. rewrite Hwr.
  rewrite (read_iq_decodes X _ start rest rest' resp) by done.
  rewrite bool_decide_eq_false_2 by (intros ?; done).
  by rewrite bool_decide_eq_true_2 by done.
Qed.

End BindClaims.

Section BindServerClaims.

Context (X : Externals).

Abbreviation iq_element := (mkName (ns_Client X) "iq").

(** What the server branch does once the request is decoded and the
    allocation has answered [(j, err)]. *)
Lemma bind_server_after_allocation (f : ServerFunc) (rnd : Entropy)
    (session : Session) (data : iface) (start : StartElement)
    (rest rest' : list (error + Token)) (resReq : bindIQ)
    (j : option JID) (err : option error) :
  Z.land (State session) Received = Received ->
  input session = inr (StartTok start) :: rest ->
  ElName start = iq_element ->
  xml_DecodeElement X start rest = (inr resReq, rest') ->
  f (RemoteAddr session) (Resource (Bind resReq)) = (j, err) ->
  bind_Negotiate X (Some f) rnd session data =
    match err with
    | Some (StanzaErr se) =>
        let '(w, (_, werr)) :=
          Copy (conn session)
            (stanza_WrapIQ X (From (BIQ resReq)) ResultIQ (stanzaError_TokenReader X se)) in
        Returned ((0, None, werr), set_conn (set_input session rest') w)
    | Some e => Returned ((0, None, Some e), set_input session rest')
    | None =>
        let '(w, (_, werr)) :=
          Copy (conn session)
            (stanza_WrapIQ X (From (BIQ resReq)) ResultIQ
               (bindPayload_TokenReader X (mkBindPayload "" j))) in
        Returned ((0, None, werr), set_conn (set_input session rest') w)
    end.
Proof.
  intros Hsrv Hin Hname Hdec Halloc.
  unfold bind_Negotiate. rewrite bool_decide_eq_true_2 by done.
  rewrite (read_iq_decodes X _ start rest rest' resReq) by done.
  cbn [RemoteAddr set_input]. rewrite Halloc. simpl.
  destruct err as [[c|se|p|m]|]; simpl; try reflexivity;
    unfold bindIQ_WriteXML, bindIQ_TokenReader; simpl;
    by destruct (Copy _ _) as [w [k werr]].
Qed.

(** C5: on the receiving side with a configured allocation function that
    answers with an error [err]: if [err] is a [stanza.Error] value, the
    response handed to the writer is the result iq wrapping that error's
    tokens, and the error Negotiate returns is whatever that write gave:
    when the connection refuses none of the tokens the whole response is
    written and the result is that of the final flush, so no error at all
    when the flush succeeds; for any other error Negotiate returns that
    error with the connection as before, nothing written. *)
Theorem bind_server_allocation_error (f : ServerFunc) (rnd : Entropy)
    (session : Session) (data : iface) (start : StartElement)
    (rest rest' : list (error + Token)) (resReq : bindIQ)
    (j : option JID) (err : error)
    (Hsrv : Z.land (State session) Received = Received)
    (Hin : input session = inr (StartTok start) :: rest)
    (Hname : ElName start = iq_element)
    (Hdec : xml_DecodeElement X start rest = (inr resReq, rest'))
    (Halloc : f (RemoteAddr session) (Resource (Bind resReq)) = (j, Some err)) :
  match err with
  | StanzaErr se =>
      let response :=
        stanza_WrapIQ X (From (BIQ resReq)) ResultIQ (stanzaError_TokenReader X se) in
      exists w n werr,
        Copy (conn session) response = (w, (n, werr))
        /\ bind_Negotiate X (Some f) rnd session data
           = Returned ((0, None, werr), set_conn (set_input session rest') w)
        /\ ((forall h t, refuses (conn session) h t = None) ->
            written w = written (conn session) ++ response
            /\ werr = flush_refuses (conn session) (written w)
            /\ ((forall h, flush_refuses (conn session) h = None) -> werr = None))
  | _ =>
      exists session',
        bind_Negotiate X (Some f) rnd session data
          = Returned ((0, None, Some err), session')
        /\ conn session' = conn session
  end.
Proof.
  pose proof (bind_server_after_allocation f rnd session data start rest rest'
                resReq j (Some err) Hsrv Hin Hname Hdec Halloc) as Hrun.
  destruct err as [c|se|p|m]; try (by eexists).
  cbn zeta.
  destruct (Copy (conn session) _) as [w [n werr]] eqn:Hcopy.
  exists w, n, werr. split; [done|]. split; [done|].
  intros Hok.
  destruct (Copy_accepted (conn session)
              (stanza_WrapIQ X (From (BIQ resReq)) ResultIQ
                 (stanzaError_TokenReader X se)) Hok) as (w' & Hw' & Hout).
  rewrite Hcopy in Hw'. injection Hw' as <- _ ->.
  split; [done|]. rewrite Hout. split; [done|]. intros Hflush. apply Hflush.
Qed.

(** C4: on the receiving side, the outcome of Negotiate, and with it every
    token written to the stream, is the same for two requests whose start
    elements differ (in their id attribute, say) as long as they decode to
    the same sender and requested resource: the id read from the request is
    stored in the response struct, but [bindIQ.TokenReader] hands only [To],
    [Type] and the payload to [stanza.WrapIQ], so it is not written. *)
Theorem bind_server_response_ignores_id (server : option ServerFunc)
    (rnd : Entropy) (session : Session) (data : iface)
    (start1 start2 : StartElement) (rest rest' : list (error + Token))
    (req1 req2 : bindIQ)
    (Hsrv : Z.land (State session) Received = Received)
    (Hname1 : ElName start1 = iq_element)
    (Hname2 : ElName start2 = iq_element)
    (Hdec1 : xml_DecodeElement X start1 rest = (inr req1, rest'))
    (Hdec2 : xml_DecodeElement X start2 rest = (inr req2, rest'))
    (Hfrom : From (BIQ req1) = From (BIQ req2))
    (Hres : Resource (Bind req1) = Resource (Bind req2)) :
  bind_Negotiate X server rnd (set_input session (inr (StartTok start1) :: rest)) data
  = bind_Negotiate X server rnd (set_input session (inr (StartTok start2) :: rest)) data.
Proof.
  unfold bind_Negotiate. cbn [State set_input].
  rewrite bool_decide_eq_true_2 by done.
  rewrite (read_iq_decodes X _ start1 rest rest' req1) by done.
  rewrite (read_iq_decodes X _ start2 rest rest' req2) by done.
  cbn [RemoteAddr set_input]. rewrite Hres.
  destruct server as [f|].
  - simpl. destruct (f _ _) as [j err].
    destruct (as_stanza_Error err) as [se ok].
    destruct (bool_decide (err ≠ None) && negb ok); [done|].
    unfold bindIQ_WriteXML, bindIQ_TokenReader. simpl.
    rewrite Hfrom. by destruct ok.
  - destruct (internal_RandomID X rnd) as [id|p]; [|done]. simpl.
    destruct (jid_WithResource X _ _) as [[j err]|p]; [|done]. simpl.
    destruct (as_stanza_Error err) as [se ok].
    destruct (bool_decide (err ≠ None) && negb ok); [done|].
    unfold bindIQ_WriteXML, bindIQ_TokenReader. simpl.
    rewrite Hfrom. by destruct ok.
Qed.

End BindServerClaims.

(** ** The claims at concrete sessions *)

Lemma bind_server_rejects_non_iq_witness :
  let session := server_session [inr (StartTok message_start)] in
  Z.land (State session) Received = Received
  /\ exists session',
      bind_Negotiate sample None zero_pool session INil
        = Returned ((0, None, Some stream_BadFormat), session')
      /\ conn session' = conn session
      /\ written (conn session') = written (conn session).
Proof.
  intros session. split; [reflexivity|].
  apply (bind_server_rejects_non_iq sample None zero_pool session INil
           (StartTok message_start) []).
  - reflexivity.
  - reflexivity.
  - intros start [= <-]. discriminate.
Defined.

Lemma bind_client_id_mismatch_witness :
  let session :=
    client_session_reading (iq_tokens "Y" "result" "jid" "user@example.com/aa11bb22") in
  Z.land (State session) Received ≠ Received
  /\ exists session',
      bind_Negotiate sample None zero_pool session INil
        = Returned ((0, None, Some stream_UndefinedCondition), session')
      /\ origin session' = origin session.
Proof.
  intros session.
  assert (Hcli : Z.land (State session) Received ≠ Received) by discriminate.
  split; [exact Hcli|].
  eapply (bind_client_id_mismatch sample None zero_pool session _ INil).
  - exact Hcli.
  - reflexivity.
  - reflexivity.
  - reflexivity.
  - reflexivity.
  - reflexivity.
  - reflexivity.
  - discriminate.
Defined.

Lemma bind_client_result_witness :
  let session :=
    client_session_reading
      (iq_tokens "0000000000000000" "result" "jid" "user@example.com/aa11bb22") in
  Z.land (State session) Received ≠ Received
  /\ exists session',
      bind_Negotiate sample None zero_pool session INil
        = Returned ((Ready, None, None), session')
      /\ origin session' = Some (mkJID "user" "example.com" "aa11bb22").
Proof.
  intros session.
  assert (Hcli : Z.land (State session) Received ≠ Received) by discriminate.
  split; [exact Hcli|].
  edestruct (bind_client_result sample None zero_pool session)
    with (data := INil) as (session' & Hrun & Horigin).
  - exact Hcli.
  - reflexivity.
  - reflexivity.
  - reflexivity.
  - reflexivity.
  - reflexivity.
  - reflexivity.
  - reflexivity.
  - reflexivity.
  - exists session'. split; [exact Hrun|]. rewrite Horigin. reflexivity.
Defined.

Lemma bind_server_allocation_error_witness :
  let session := server_session (iq_tokens "X" "set" "resource" "home") in
  let response :=
    stanza_WrapIQ sample None ResultIQ (stanzaError_TokenReader sample conflict) in
  Z.land (State session) Received = Received
  /\ exists w n werr,
      Copy (conn session) response = (w, (n, werr))
      /\ bind_Negotiate sample (Some refuse_all) zero_pool session INil
         = Returned ((0, None, werr), set_conn (set_input session []) w)
      /\ ((forall h t, refuses (conn session) h t = None) ->
          written w = written (conn session) ++ response
          /\ werr = flush_refuses (conn session) (written w)
          /\ ((forall h, flush_refuses (conn session) h = None) -> werr = None)).
Proof.
  intros session response. split; [reflexivity|].
  eapply (bind_server_allocation_error sample refuse_all zero_pool session INil
            _ _ []
            (mkBindIQ (mkIQ "X" None None "set") (mkBindPayload "home" None) None)
            None (StanzaErr conflict)).
  - reflexivity.
  - reflexivity.
  - reflexivity.
  - reflexivity.
  - reflexivity.
Defined.

Lemma bind_server_response_ignores_id_witness :
  bind_Negotiate sample None zero_pool
    (server_session (iq_tokens "X" "set" "resource" "home")) INil
  = bind_Negotiate sample None zero_pool
      (server_session (iq_tokens "Y" "set" "resource" "home")) INil.
Proof.
  eapply (bind_server_response_ignores_id sample None zero_pool
            (server_session []) INil
            (mkStart iq_name [attr "id" "X"; attr "type" "set"])
            (mkStart iq_name [attr "id" "Y"; attr "type" "set"])).
  - reflexivity.
  - reflexivity.
  - reflexivity.
  - reflexivity.
  - reflexivity.
  - reflexivity.
  - reflexivity.
Defined.

(** The response written for the request with id "X": an iq start element
    with a type attribute only. *)
Example bind_server_response_sample :
  exists session',
    bind_Negotiate sample None zero_pool
      (server_session (iq_tokens "X" "set" "resource" "home")) INil
    = Returned ((0, None, None), session')
    /\ written (conn session')
       = [StartTok (mkStart (mkName "" "iq") [attr "type" "result"]);
          StartTok (mkStart (mkName "" "jid") []);
          CharData "user@example.com/0000000000000000";
          EndTok (mkName "" "jid");
          EndTok (mkName "" "iq")].
Proof. eexists. split; reflexivity. Qed.

(** * Further properties of the code *)

(** ** [internal.RandomID]: edge cases and how identifiers relate *)

Section RandomIDMore.

Lemma hexdigit_inj (k k' : N) :
  (k < 16)%N -> (k' < 16)%N -> hexdigit k = hexdigit k' -> k = k'.
Proof.
  unfold hexdigit. intros Hk Hk' Heq.
  apply N2Nat.inj.
  assert (N.to_nat k < 16)%nat as Hi by lia.
  assert (N.to_nat k' < 16)%nat as Hj by lia.
  revert Hi Hj Heq. generalize (N.to_nat k) (N.to_nat k'). clear.
  intros i j Hi Hj.
  do 16 (destruct i as [|i]; [
    do 16 (destruct j as [|j]; [first [reflexivity | discriminate]|]); lia |]).
  lia.
Qed.

Lemma nibbles_inj (x y : Byte.byte) :
  N.shiftr (Byte.to_N x) 4 = N.shiftr (Byte.to_N y) 4 ->
  N.land (Byte.to_N x) 15 = N.land (Byte.to_N y) 15 ->
  x = y.
Proof.
  intros Hhi Hlo.
  rewrite !N.shiftr_div_pow2 in Hhi.
  change 15%N with (N.ones 4) in Hlo. rewrite !N.land_ones in Hlo.
  assert (Byte.to_N x = Byte.to_N y) as Heq.
  { rewrite (N.div_mod (Byte.to_N x) (2 ^ 4)) by discriminate.
    rewrite (N.div_mod (Byte.to_N y) (2 ^ 4)) by discriminate.
    by rewrite Hhi, Hlo. }
  pose proof (Byte.of_to_N x) as Hx. rewrite Heq, Byte.of_to_N in Hx.
  by injection Hx.
Qed.

Lemma nibble_bounds (x : Byte.byte) :
  (N.shiftr (Byte.to_N x) 4 < 16)%N /\ (N.land (Byte.to_N x) 15 < 16)%N.
Proof.
  pose proof (Byte.to_N_bounded x) as Hb. split.
  - rewrite N.shiftr_div_pow2. apply N.Div0.div_lt_upper_bound.
    change (2 ^ 4 * 16)%N with 256%N. lia.
  - change 15%N with (N.ones 4). rewrite N.land_ones.
    apply N.mod_lt. discriminate.
Qed.

(** Printing in hexadecimal loses nothing. *)
Lemma sprintf_x_inj (b b' : list Byte.byte) :
  sprintf_x b = sprintf_x b' -> b = b'.
Proof.
  revert b'. induction b as [|x b IH]; intros [|y b'] Heq; simpl in Heq;
    try discriminate; [reflexivity|].
  injection Heq as Hhi Hlo Hrest.
  destruct (nibble_bounds x) as [? ?], (nibble_bounds y) as [? ?].
  apply hexdigit_inj in Hhi; [|done..]. apply hexdigit_inj in Hlo; [|done..].
  f_equal; [by apply nibbles_inj | by apply IH].
Qed.

Lemma sprintf_x_app (b b' : list Byte.byte) :
  sprintf_x (b ++ b') = (sprintf_x b +:+ sprintf_x b')%string.
Proof. induction b as [|x b IH]; simpl; [reflexivity|]. by rewrite IH. Qed.

Lemma substring_all (s : string) : substring 0 (String.length s) s = s.
Proof. induction s as [|c s IH]; simpl; [reflexivity|]. by rewrite IH. Qed.

Lemma substring_prefix_app (s s' : string) (m : nat) :
  (m <= String.length s)%nat -> substring 0 m (s +:+ s') = substring 0 m s.
Proof.
  revert m. induction s as [|c s IH]; intros [|m] Hm; simpl in *; try lia.
  - by destruct s'.
  - reflexivity.
  - rewrite IH; [reflexivity|lia].
Qed.

Lemma substring_prefix_twice (s : string) (m n : nat) :
  (m <= n)%nat -> substring 0 m (substring 0 n s) = substring 0 m s.
Proof.
  revert m n. induction s as [|c s IH]; intros [|m] [|n] Hmn; simpl; try lia;
    try reflexivity.
  rewrite IH; [reflexivity|lia].
Qed.

(** What [RandomID] returns when the pool serves bytes. *)
Lemma RandomID_served (pool : nat -> Byte.byte) (n : Z) :
  0 <= n ->
  RandomID (Avail pool) n =
    Returned (substring 0 (Z.to_nat n)
                (sprintf_x (pool <$> seq 0 (Z.to_nat (Z.quot n 2 + Z.land n 1))))).
Proof.
  intros Hn. destruct (buffer_covers n Hn) as [Hlen Hcov]. unfold RandomID.
  destruct (Z.ltb_spec (Z.quot n 2 + Z.land n 1) 0) as [?|_]; [lia|].
  cbn [rand_Read].
  destruct (Z.ltb_spec n 0) as [?|_]; [lia|].
  rewrite sprintf_x_length, length_map, length_seq.
  destruct (Z.ltb_spec (Z.of_nat (2 * Z.to_nat (Z.quot n 2 + Z.land n 1))) n)
    as [?|_]; [lia|].
  reflexivity.
Qed.

Lemma map_seq_ext {A : Type} (f g : nat -> A) (k : nat) :
  f <$> seq 0 k = g <$> seq 0 k ↔ forall i, (i < k)%nat -> f i = g i.
Proof.
  split.
  - intros Heq i Hi.
    assert ((f <$> seq 0 k) !! i = (g <$> seq 0 k) !! i) as Hl by by rewrite Heq.
    rewrite !list_lookup_fmap, !lookup_seq_lt in Hl by done.
    by injection Hl.
  - intros Hext. apply list_fmap_ext. intros i x Hx.
    apply lookup_seq in Hx as [-> Hlt]. by apply Hext.
Qed.

End RandomIDMore.

(** X1: a negative length never yields an identifier: [RandomID] panics,
    whatever the entropy pool does. *)
Theorem RandomID_negative_panics (rnd : Entropy) (n : Z) (Hn : n < 0) :
  exists p, RandomID rnd n = Panicked p.
Proof.
  unfold RandomID.
  destruct (_ <? 0); [by eexists|].
  destruct (rand_Read rnd _) as [err|b]; [by eexists|].
  destruct (Z.ltb_spec n 0) as [_|?]; [|lia]. by eexists.
Qed.

Lemma RandomID_negative_panics_witness :
  -3 < 0 /\ exists p, RandomID zero_pool (-3) = Panicked p.
Proof. split; [lia | apply (RandomID_negative_panics zero_pool (-3)); lia]. Defined.

(** X2: for an even length [2k] the identifier determines the [k] bytes it
    was drawn from: two pools give the same identifier exactly when they
    agree on their first [k] bytes. *)
Theorem RandomID_even_injective (pool pool' : nat -> Byte.byte) (k : nat) :
  RandomID (Avail pool) (2 * Z.of_nat k) = RandomID (Avail pool') (2 * Z.of_nat k)
  ↔ forall i, (i < k)%nat -> pool i = pool' i.
Proof.
  assert (Z.to_nat (Z.quot (2 * Z.of_nat k) 2 + Z.land (2 * Z.of_nat k) 1) = k)
    as Hlen.
  { rewrite Z.quot_div_nonneg by lia.
    change 1 with (Z.ones 1). rewrite Z.land_ones by lia.
    rewrite (Z.mul_comm 2), Z.div_mul, Z.mod_mul by lia. lia. }
  rewrite !RandomID_served, Hlen by lia.
  assert (forall p : nat -> Byte.byte,
    substring 0 (Z.to_nat (2 * Z.of_nat k)) (sprintf_x (p <$> seq 0 k))
    = sprintf_x (p <$> seq 0 k)) as Hfull.
  { intros p. rewrite <- (substring_all (sprintf_x (p <$> seq 0 k))) at 2.
    f_equal. rewrite sprintf_x_length, length_map, length_seq. lia. }
  rewrite !Hfull, <- map_seq_ext. split.
  - intros [= Heq]. by apply sprintf_x_inj.
  - by intros ->.
Qed.

(** X3: identifiers of different lengths drawn from the same pool are
    prefixes of one another: for [0 <= m <= n], [RandomID(m)] is the first
    [m] characters of [RandomID(n)]. *)
Theorem RandomID_prefix (pool : nat -> Byte.byte) (m n : Z)
    (Hm : 0 <= m) (Hmn : m <= n) :
  exists s,
    RandomID (Avail pool) n = Returned s
    /\ RandomID (Avail pool) m = Returned (substring 0 (Z.to_nat m) s).
Proof.
  rewrite !RandomID_served by lia. eexists. split; [reflexivity|]. f_equal.
  rewrite substring_prefix_twice by lia.
  destruct (buffer_covers m Hm) as [Hlm Hcm].
  destruct (buffer_covers n ltac:(lia)) as [Hln Hcn].
  set (km := Z.to_nat (Z.quot m 2 + Z.land m 1)).
  set (kn := Z.to_nat (Z.quot n 2 + Z.land n 1)).
  assert (km <= kn)%nat as Hk.
  { subst km kn.
    rewrite !Z.quot_div_nonneg by lia.
    change 1 with (Z.ones 1). rewrite !Z.land_ones by lia. change (2 ^ 1) with 2.
    pose proof (Z.div_mod m 2 ltac:(lia)). pose proof (Z.div_mod n 2 ltac:(lia)).
    pose proof (Z.mod_pos_bound m 2 ltac:(lia)).
    pose proof (Z.mod_pos_bound n 2 ltac:(lia)). lia. }
  replace kn with (km + (kn - km))%nat by lia.
  rewrite seq_app, fmap_app, sprintf_x_app.
  symmetry. apply substring_prefix_app.
  rewrite sprintf_x_length, length_map, length_seq. subst km. lia.
Qed.

Lemma RandomID_prefix_witness :
  0 <= 3 /\ 3 <= 8 /\
  exists s,
    RandomID zero_pool 8 = Returned s
    /\ RandomID zero_pool 3 = Returned (substring 0 (Z.to_nat 3) s).
Proof.
  split; [lia|]. split; [lia|].
  apply (RandomID_prefix (fun _ => Byte.x00) 3 8); lia.
Defined.

(** ** bind.go: what Negotiate leaves alone *)

Section BindFrame.

Context (X : Externals).

Lemma Copy_frame (w w' : TokenWriter) (r : list Token) (n : nat)
    (err : option error) :
  Copy w r = (w', (n, err)) ->
  written w' = written w ++ take n r
  /\ refuses w' = refuses w /\ flush_refuses w' = flush_refuses w
  /\ (err = None -> n = length r).
Proof.
  revert w n. induction r as [|t r IH]; intros w n Hcopy; cbn [Copy] in Hcopy.
  - injection Hcopy as <- <- <-. by rewrite app_nil_r.
  - destruct (EncodeToken w t) as [w1 [e|]] eqn:Henc.
    + injection Hcopy as <- <- <-.
      unfold EncodeToken in Henc. destruct (refuses w (written w) t); [|done].
      injection Henc as <- _. by rewrite app_nil_r.
    + destruct (Copy w1 r) as [w2 [k e2]] eqn:Hrest.
      injection Hcopy as <- <- <-.
      apply EncodeToken_ok in Henc as (W1 & R1 & F1).
      destruct (IH _ _ Hrest) as (W2 & R2 & F2 & Hn).
      rewrite W2, W1, R2, R1, F2, F1. cbn [take]. rewrite <- app_assoc.
      repeat split; try done. intros ->. cbn [length]. by rewrite Hn.
Qed.

(** Reading an iq only consumes input. *)
Lemma read_iq_frame (session session' : Session)
    (r : error + StartElement * bindIQ) :
  read_iq X session = (r, session') ->
  session' = set_input session (input session').
Proof.
  unfold read_iq, d_Token, d_DecodeElement. destruct session as [st o ra inp c].
  cbn [input set_input State origin RemoteAddr conn].
  destruct inp as [|[e|[start| | |]] rest]; try (by intros [= <- <-]).
  destruct (decide _) as [Hname|Hname]; [|by intros [= <- <-]].
  cbn [input set_input State origin RemoteAddr conn].
  destruct (xml_DecodeElement X start rest) as [[err|iq] rest'];
    by intros [= <- <-].
Qed.

Lemma bindIQ_WriteXML_frame (biq : bindIQ) (session session' : Session)
    (n : nat) (err : option error) :
  bindIQ_WriteXML X biq session = (session', (n, err)) ->
  State session' = State session /\ origin session' = origin session
  /\ RemoteAddr session' = RemoteAddr session /\ input session' = input session
  /\ written (conn session')
     = written (conn session) ++ take n (bindIQ_TokenReader X biq)
  /\ (err = None -> n = length (bindIQ_TokenReader X biq)).
Proof.
  intros Hw. destruct (bindIQ_WriteXML_session X _ _ _ _ Hw) as (w & Hcopy & ->).
  apply Copy_frame in Hcopy as (W & _ & _ & Hn).
  cbn [State origin RemoteAddr input conn set_conn]. by rewrite W.
Qed.

(** Every way the receiving side can return. *)
Lemma bind_server_returns (server : option ServerFunc) (rnd : Entropy)
    (session session' : Session) (data : iface) (res : NegotiateResult) :
  Z.land (State session) Received = Received ->
  bind_Negotiate X server rnd session data = Returned (res, session') ->
  exists err out,
    res = (0, None, err)
    /\ State session' = State session /\ origin session' = origin session
    /\ RemoteAddr session' = RemoteAddr session
    /\ written (conn session') = written (conn session) ++ out.
Proof.
  intros Hsrv. unfold bind_Negotiate. rewrite bool_decide_eq_true_2 by done.
  destruct (read_iq X session) as [[e|[start resReq]] s1] eqn:Hread;
    apply read_iq_frame in Hread; rewrite Hread.
  { intros [= <- <-]. exists (Some e), []. by rewrite app_nil_r. }
  cbn [RemoteAddr set_input].
  set (alloc := match server with Some f => _ | None => _ end).
  destruct alloc as [[j err]|p]; [|done]. simpl.
  destruct (as_stanza_Error err) as [se ok].
  destruct (bool_decide (err ≠ None) && negb ok).
  { intros [= <- <-]. exists err, []. by rewrite app_nil_r. }
  destruct (bindIQ_WriteXML X _ _) as [s2 [n werr]] eqn:Hw.
  intros [= <- <-].
  apply bindIQ_WriteXML_frame in Hw as (? & ? & ? & ? & W & _).
  eexists werr, _. by rewrite W.
Qed.

(** Every way the initiating side can return. *)
Lemma bind_client_returns (server : option ServerFunc) (rnd : Entropy)
    (session session' : Session) (data : iface) (res : NegotiateResult) :
  Z.land (State session) Received ≠ Received ->
  bind_Negotiate X server rnd session data = Returned (res, session') ->
  exists out,
    State session' = State session /\ RemoteAddr session' = RemoteAddr session
    /\ written (conn session') = written (conn session) ++ out
    /\ ((exists j, res = (Ready, None, None) /\ origin session' = j)
        \/ (exists e, res = (0, None, Some e) /\ origin session' = origin session)).
Proof.
  intros Hcli. unfold bind_Negotiate. rewrite bool_decide_eq_false_2 by done.
  destruct (internal_RandomID X rnd) as [reqID|p]; [|done]. simpl.
  destruct (jid_Resourcepart X (origin session)) as [r|p]; [|done]. simpl.
  destruct (bindIQ_WriteXML X _ _) as [s1 [n werr]] eqn:Hw.
  apply bindIQ_WriteXML_frame in Hw as (HS & HO & HR & HI & W & _).
  destruct werr as [e|].
  { intros [= <- <-]. eexists. repeat split; try done. right. by exists e. }
  destruct (read_iq X s1) as [[e|[start resp]] s2] eqn:Hread;
    apply read_iq_frame in Hread; rewrite Hread.
  { intros [= <- <-]. eexists. repeat split; try done. right. by exists e. }
  repeat case_bool_decide; intros [= <- <-]; eexists;
    (repeat split; [done..|]); try (right; by eexists).
  left. by eexists.
Qed.

End BindFrame.

Section BindInvariants.

Context (X : Externals).

(** X4: whenever Negotiate of the bind feature returns, on either side, it
    hands back no replacement transport and the session's state bits and
    remote address are what they were. *)
Theorem bind_Negotiate_keeps_transport_and_state (server : option ServerFunc)
    (rnd : Entropy) (session session' : Session) (data : iface)
    (mask : SessionState) (rw : option ReadWriter) (err : option error)
    (Hret : bind_Negotiate X server rnd session data
            = Returned ((mask, rw, err), session')) :
  rw = None /\ State session' = State session
  /\ RemoteAddr session' = RemoteAddr session.
Proof.
  destruct (decide (Z.land (State session) Received = Received)) as [Hsrv|Hcli].
  - destruct (bind_server_returns X _ _ _ _ _ _ Hsrv Hret)
      as (e & out & [= -> -> ->] & ? & ? & ? & ?). done.
  - destruct (bind_client_returns X _ _ _ _ _ _ Hcli Hret)
      as (out & ? & ? & ? & [(j & [= -> -> ->] & ?)|(e & [= -> -> ->] & ?)]);
      done.
Qed.

(** X6: on the receiving side Negotiate never sets a state bit and never
    touches the session's address: whatever request arrives and whatever the
    allocator answers, the mask returned is zero and [origin] is kept. *)
Theorem bind_server_never_ready (server : option ServerFunc)
    (rnd : Entropy) (session session' : Session) (data : iface)
    (mask : SessionState) (rw : option ReadWriter) (err : option error)
    (Hsrv : Z.land (State session) Received = Received)
    (Hret : bind_Negotiate X server rnd session data
            = Returned ((mask, rw, err), session')) :
  mask = 0 /\ origin session' = origin session.
Proof.
  destruct (bind_server_returns X _ _ _ _ _ _ Hsrv Hret)
    as (e & out & [= -> -> ->] & _ & ? & _). done.
Qed.

(** X7: on the initiating side the mask is [Ready] exactly when no error is
    returned and zero otherwise, and a failed negotiation leaves the
    session's address as it was. *)
Theorem bind_client_ready_iff_no_error (server : option ServerFunc)
    (rnd : Entropy) (session session' : Session) (data : iface)
    (mask : SessionState) (rw : option ReadWriter) (err : option error)
    (Hcli : Z.land (State session) Received ≠ Received)
    (Hret : bind_Negotiate X server rnd session data
            = Returned ((mask, rw, err), session')) :
  (err = None /\ mask = Ready)
  \/ (err ≠ None /\ mask = 0 /\ origin session' = origin session).
Proof.
  destruct (bind_client_returns X _ _ _ _ _ _ Hcli Hret)
    as (out & _ & _ & _ & [(j & [= -> -> ->] & _)|(e & [= -> -> ->] & ?)]).
  - by left.
  - by right.
Qed.

(** X8: on a client session [BindCustom(server)] negotiates exactly as
    [BindResource()] does: the server function is never consulted. *)
Theorem BindCustom_client_is_BindResource (server : option ServerFunc)
    (rnd : Entropy) (session : Session) (data : iface)
    (Hcli : Z.land (State session) Received ≠ Received) :
  Negotiate (BindCustom X server) rnd session data
  = Negotiate (BindResource X) rnd session data.
Proof.
  unfold BindCustom, BindResource, bind, bind_Negotiate. cbn [Negotiate].
  by rewrite !bool_decide_eq_false_2 by done.
Qed.

End BindInvariants.

Lemma bind_Negotiate_keeps_transport_and_state_witness :
  exists mask rw err session',
    bind_Negotiate sample None zero_pool
      (client_session_reading
         (iq_tokens "0000000000000000" "result" "jid" "user@example.com/aa11bb22"))
      INil = Returned ((mask, rw, err), session')
    /\ rw = None /\ State session' = 3
    /\ RemoteAddr session' = None.
Proof.
  do 4 eexists. split; [reflexivity|].
  eapply (bind_Negotiate_keeps_transport_and_state sample None zero_pool
            (client_session_reading
               (iq_tokens "0000000000000000" "result" "jid"
                  "user@example.com/aa11bb22")) _ INil).
  reflexivity.
Defined.

Lemma bind_server_never_ready_witness :
  let session := server_session (iq_tokens "X" "set" "resource" "home") in
  Z.land (State session) Received = Received
  /\ exists mask rw err session',
      bind_Negotiate sample (Some grant_requested) zero_pool session INil
      = Returned ((mask, rw, err), session')
      /\ mask = 0 /\ origin session' = origin session.
Proof.
  intros session. split; [reflexivity|].
  do 4 eexists. split; [reflexivity|].
  eapply (bind_server_never_ready sample (Some grant_requested) zero_pool session
            _ INil);
    reflexivity.
Defined.

Lemma bind_client_ready_iff_no_error_witness :
  let session := client_session_reading (iq_tokens "0000000000000000" "error" "jid" "x") in
  Z.land (State session) Received ≠ Received
  /\ exists mask rw err session',
      bind_Negotiate sample None zero_pool session INil
      = Returned ((mask, rw, err), session')
      /\ ((err = None /\ mask = Ready)
          \/ (err ≠ None /\ mask = 0 /\ origin session' = origin session)).
Proof.
  intros session.
  assert (Hcli : Z.land (State session) Received ≠ Received) by discriminate.
  split; [exact Hcli|].
  do 4 eexists. split; [reflexivity|].
  eapply (bind_client_ready_iff_no_error sample None zero_pool session _ INil);
    [exact Hcli | reflexivity].
Defined.

Lemma BindCustom_client_is_BindResource_witness :
  Z.land (State client_session) Received ≠ Received
  /\ Negotiate (BindCustom sample (Some refuse_all)) zero_pool client_session INil
     = Negotiate (BindResource sample) zero_pool client_session INil.
Proof.
  assert (Hcli : Z.land (State client_session) Received ≠ Received) by discriminate.
  split; [exact Hcli|].
  exact (BindCustom_client_is_BindResource sample (Some refuse_all) zero_pool
           client_session INil Hcli).
Defined.

(** ** bind.go: the remaining paths of Negotiate and List *)

Section BindPaths.

Context (X : Externals).

Abbreviation iq_element := (mkName (ns_Client X) "iq").

Abbreviation request reqID res :=
  (mkBindIQ (mkIQ reqID None None SetIQ) (mkBindPayload res None) None).

(** The element that carries the bound address, or an empty [resource]
    element when there is none. *)
Abbreviation bound_payload j :=
  (match j with
   | Some jid =>
       [StartTok (mkStart (mkName "" "jid") []); CharData (jid_String X jid);
        EndTok (mkName "" "jid")]
   | None =>
       [StartTok (mkStart (mkName "" "resource") []); CharData "";
        EndTok (mkName "" "resource")]
   end).

(** X9: on the initiating side, once the request has been written and
    flushed without error, a response with the request's id whose type is
    not [result] fails the negotiation and keeps the session's address:
    type [error] returns the response's error pointer (nil if the response
    carried none), any other type a [bad-request] stanza error. *)
Theorem bind_client_non_result (server : option ServerFunc) (rnd : Entropy)
    (session session1 : Session) (data : iface) (reqID res : string) (n : nat)
    (start : StartElement) (rest rest' : list (error + Token)) (resp : bindIQ)
    (Hcli : Z.land (State session) Received ≠ Received)
    (Hid : internal_RandomID X rnd = Returned reqID)
    (Hres : jid_Resourcepart X (origin session) = Returned res)
    (Hwr : bindIQ_WriteXML X (request reqID res) session = (session1, (n, None)))
    (Hin : input session = inr (StartTok start) :: rest)
    (Hname : ElName start = iq_element)
    (Hdec : xml_DecodeElement X start rest = (inr resp, rest'))
    (Hsame : ID (BIQ resp) = reqID)
    (Htype : IQType (BIQ resp) ≠ ResultIQ) :
  exists session',
    bind_Negotiate X server rnd session data
      = Returned ((0, None,
                   Some (if decide (IQType (BIQ resp) = ErrorIQ)
                         then StanzaErrPtr (Err resp)
                         else StanzaErr (mkStanzaError "" BadRequest))),
                  session')
    /\ origin session' = origin session.
Proof.
  exists (set_input session1 rest').
  destruct (bindIQ_WriteXML_session X _ _ _ _ Hwr) as (w & _ & ->).
  unfold bind_Negotiate. rewrite bool_decide_eq_false_2 by done.
  rewrite Hid. simpl. rewrite Hres. simpl. rewrite Hwr.
  rewrite (read_iq_decodes X _ start rest rest' resp) by done.
  rewrite bool_decide_eq_false_2 by (intros ?; done).
  rewrite bool_decide_eq_false_2 by done.
  by destruct (decide (IQType (BIQ resp) = ErrorIQ));
    [rewrite bool_decide_eq_true_2 by done|rewrite bool_decide_eq_false_2 by done].
Qed.

(** X10: on the initiating side, when writing the request fails, because
    the connection refuses a token or because the final flush fails,
    Negotiate returns the writer's error with a zero mask and reads
    nothing: the input and the session's address are as before. *)
Theorem bind_client_write_failure (server : option ServerFunc) (rnd : Entropy)
    (session session1 : Session) (data : iface) (reqID res : string) (n : nat)
    (e : error)
    (Hcli : Z.land (State session) Received ≠ Received)
    (Hid : internal_RandomID X rnd = Returned reqID)
    (Hres : jid_Resourcepart X (origin session) = Returned res)
    (Hwr : bindIQ_WriteXML X (request reqID res) session = (session1, (n, Some e))) :
  bind_Negotiate X server rnd session data = Returned ((0, None, Some e), session1)
  /\ input session1 = input session /\ origin session1 = origin session.
Proof.
  destruct (bindIQ_WriteXML_frame X _ _ _ _ _ Hwr) as (_ & HO & _ & HI & _).
  split; [|done].
  unfold bind_Negotiate. rewrite bool_decide_eq_false_2 by done.
  rewrite Hid. simpl. rewrite Hres. simpl. by rewrite Hwr.
Qed.

(** X11: on the receiving side, when there is nothing to read (end of
    input) or reading the next token fails, Negotiate returns that error,
    [io.EOF] at the end of input, and writes nothing. *)
Theorem bind_server_read_error (server : option ServerFunc) (rnd : Entropy)
    (session : Session) (data : iface) (err : error)
    (Hsrv : Z.land (State session) Received = Received)
    (Hin : (input session = [] /\ err = io_EOF)
           \/ exists rest, input session = inl err :: rest) :
  exists session',
    bind_Negotiate X server rnd session data
      = Returned ((0, None, Some err), session')
    /\ conn session' = conn session.
Proof.
  unfold bind_Negotiate, read_iq, d_Token.
  rewrite bool_decide_eq_true_2 by done.
  destruct Hin as [[-> ->]|[rest ->]]; by eexists.
Qed.

(** X12: on the receiving side, when the iq cannot be decoded, Negotiate
    returns the decoder's error and writes nothing. *)
Theorem bind_server_decode_error (server : option ServerFunc) (rnd : Entropy)
    (session : Session) (data : iface) (start : StartElement)
    (rest rest' : list (error + Token)) (err : error)
    (Hsrv : Z.land (State session) Received = Received)
    (Hin : input session = inr (StartTok start) :: rest)
    (Hname : ElName start = iq_element)
    (Hdec : xml_DecodeElement X start rest = (inl err, rest')) :
  exists session',
    bind_Negotiate X server rnd session data
      = Returned ((0, None, Some err), session')
    /\ conn session' = conn session.
Proof.
  exists (set_input session rest').
  unfold bind_Negotiate, read_iq, d_Token, d_DecodeElement.
  rewrite bool_decide_eq_true_2 by done.
  rewrite Hin, decide_True by done. cbn [input set_input]. by rewrite Hdec.
Qed.

(** X13: on the receiving side with a custom allocator that answers [j]
    without error, and a connection that refuses none of the tokens,
    Negotiate has appended [WrapIQ(to, result, payload)], where [to] is the
    request's [from] and the payload is a [jid] element with the text of
    [j], or an empty [resource] element when [j] is nil, and the error it
    returns is the result of the final flush: none when the flush
    succeeds, the flush error otherwise. *)
Theorem bind_server_custom_response (f : ServerFunc) (rnd : Entropy)
    (session : Session) (data : iface) (start : StartElement)
    (rest rest' : list (error + Token)) (resReq : bindIQ) (j : option JID)
    (Hsrv : Z.land (State session) Received = Received)
    (Hin : input session = inr (StartTok start) :: rest)
    (Hname : ElName start = iq_element)
    (Hdec : xml_DecodeElement X start rest = (inr resReq, rest'))
    (Halloc : f (RemoteAddr session) (Resource (Bind resReq)) = (j, None))
    (Hok : forall h t, refuses (conn session) h t = None) :
  let out :=
    written (conn session)
    ++ stanza_WrapIQ X (From (BIQ resReq)) ResultIQ (bound_payload j) in
  exists session',
    bind_Negotiate X (Some f) rnd session data
      = Returned ((0, None, flush_refuses (conn session) out), session')
    /\ written (conn session') = out.
Proof.
  rewrite (bind_server_after_allocation X f rnd session data start rest rest'
             resReq j None Hsrv Hin Hname Hdec Halloc).
  destruct (Copy_accepted (conn session)
              (stanza_WrapIQ X (From (BIQ resReq)) ResultIQ
                 (bindPayload_TokenReader X (mkBindPayload "" j))) Hok)
    as (w & -> & Hw).
  cbn zeta. exists (set_conn (set_input session rest') w).
  cbn [conn set_conn]. rewrite Hw. by destruct j.
Qed.

(** X14: on the receiving side without a custom allocator, the bound
    address is what [WithResource] makes of the session's remote address
    and a fresh random identifier; the resource the client asked for plays
    no part.  With a connection that refuses none of the tokens the
    response is written, and the error returned is the result of the final
    flush, as in X13. *)
Theorem bind_server_default_allocation (rnd : Entropy)
    (session : Session) (data : iface) (start : StartElement)
    (rest rest' : list (error + Token)) (resReq : bindIQ)
    (id : string) (j : option JID)
    (Hsrv : Z.land (State session) Received = Received)
    (Hin : input session = inr (StartTok start) :: rest)
    (Hname : ElName start = iq_element)
    (Hdec : xml_DecodeElement X start rest = (inr resReq, rest'))
    (Hid : internal_RandomID X rnd = Returned id)
    (Hwith : jid_WithResource X (RemoteAddr session) id = Returned (j, None))
    (Hok : forall h t, refuses (conn session) h t = None) :
  let out :=
    written (conn session)
    ++ stanza_WrapIQ X (From (BIQ resReq)) ResultIQ (bound_payload j) in
  exists session',
    bind_Negotiate X None rnd session data
      = Returned ((0, None, flush_refuses (conn session) out), session')
    /\ written (conn session') = out.
Proof.
  unfold bind_Negotiate. rewrite bool_decide_eq_true_2 by done.
  rewrite (read_iq_decodes X _ start rest rest' resReq) by done.
  rewrite Hid. simpl. rewrite Hwith. simpl.
  unfold bindIQ_WriteXML, bindIQ_TokenReader. simpl.
  destruct (Copy_accepted (conn session)
              (stanza_WrapIQ X (From (BIQ resReq)) ResultIQ
                 (bindPayload_TokenReader X (mkBindPayload "" j))) Hok)
    as (w & -> & Hw).
  exists (set_conn (set_input session rest') w).
  cbn [conn set_conn]. rewrite Hw. by destruct j.
Qed.

End BindPaths.

(** X15: the List function of the bind feature always reports the feature
    as required, also when encoding fails; when it returns without error it
    has written the start element and its end element and nothing else. *)
Theorem bind_List_required (e : TokenWriter) (start : StartElement) :
  (bind_List e start).1.1 = true
  /\ ((bind_List e start).1.2 = None ->
      written (bind_List e start).2 = written e ++ [StartTok start; End start]).
Proof.
  unfold bind_List, and_then.
  destruct (EncodeToken e _) as [e1 [err|]] eqn:H1; [done|].
  destruct (EncodeToken e1 _) as [e2 [err|]] eqn:H2; [done|].
  apply EncodeToken_ok in H1 as (W1 & _), H2 as (W2 & _).
  split; [done|]. intros _. cbn [snd]. by rewrite W2, W1, <- app_assoc.
Qed.

Lemma bind_client_non_result_witness :
  let session :=
    client_session_reading (iq_tokens "0000000000000000" "get" "jid" "x") in
  Z.land (State session) Received ≠ Received
  /\ exists session',
      bind_Negotiate sample None zero_pool session INil
        = Returned ((0, None, Some (StanzaErr (mkStanzaError "" BadRequest))),
                    session')
      /\ origin session' = origin session.
Proof.
  intros session.
  assert (Hcli : Z.land (State session) Received ≠ Received) by discriminate.
  split; [exact Hcli|].
  edestruct (bind_client_non_result sample None zero_pool session)
    with (data := INil) as (session' & Hrun & Horigin).
  - exact Hcli.
  - reflexivity.
  - reflexivity.
  - reflexivity.
  - reflexivity.
  - reflexivity.
  - reflexivity.
  - reflexivity.
  - discriminate.
  - exists session'. split; [exact Hrun | exact Horigin].
Defined.

Lemma bind_client_write_failure_witness :
  let refusing :=
    mkSession (Z.lor Secure Authn) (Some user_jid) None
      (iq_tokens "0000000000000000" "result" "jid" "user@example.com/a")
      (closing_after 2 broken_pipe) in
  let unflushed :=
    mkSession (Z.lor Secure Authn) (Some user_jid) None
      (iq_tokens "0000000000000000" "result" "jid" "user@example.com/a")
      (stalled broken_pipe) in
  Z.land (State refusing) Received ≠ Received
  /\ (exists session1,
        bind_Negotiate sample None zero_pool refusing INil
          = Returned ((0, None, Some broken_pipe), session1)
        /\ input session1 = input refusing /\ origin session1 = origin refusing)
  /\ (exists session1,
        bind_Negotiate sample None zero_pool unflushed INil
          = Returned ((0, None, Some broken_pipe), session1)
        /\ input session1 = input unflushed /\ origin session1 = origin unflushed).
Proof.
  intros refusing unflushed.
  assert (Hcli : Z.land (State refusing) Received ≠ Received) by discriminate.
  split; [exact Hcli|]. split.
  - eexists.
    eapply (bind_client_write_failure sample None zero_pool refusing _ INil).
    + exact Hcli.
    + reflexivity.
    + reflexivity.
    + reflexivity.
  - eexists.
    eapply (bind_client_write_failure sample None zero_pool unflushed _ INil).
    + exact Hcli.
    + reflexivity.
    + reflexivity.
    + reflexivity.
Defined.

Lemma bind_server_read_error_witness :
  let session := server_session [] in
  Z.land (State session) Received = Received
  /\ exists session',
      bind_Negotiate sample None zero_pool session INil
        = Returned ((0, None, Some io_EOF), session')
      /\ conn session' = conn session.
Proof.
  intros session. split; [reflexivity|].
  apply (bind_server_read_error sample None zero_pool session INil io_EOF).
  - reflexivity.
  - left. split; reflexivity.
Defined.

Lemma bind_server_decode_error_witness :
  let session :=
    server_session [inr (StartTok (mkStart iq_name [attr "id" "X"]));
                    inl truncated] in
  Z.land (State session) Received = Received
  /\ exists session',
      bind_Negotiate sample None zero_pool session INil
        = Returned ((0, None, Some truncated), session')
      /\ conn session' = conn session.
Proof.
  intros session. split; [reflexivity|].
  eapply (bind_server_decode_error sample None zero_pool session INil).
  - reflexivity.
  - reflexivity.
  - reflexivity.
  - reflexivity.
Defined.

Lemma bind_server_custom_response_witness :
  let session :=
    mkSession (Z.lor (Z.lor Secure Authn) Received) (Some user_jid) (Some user_jid)
      (iq_tokens "X" "set" "resource" "home") (stalled broken_pipe) in
  let out :=
    written (conn session)
    ++ stanza_WrapIQ sample None ResultIQ
         [StartTok (mkStart (mkName "" "jid") []);
          CharData "user@example.com/home";
          EndTok (mkName "" "jid")] in
  Z.land (State session) Received = Received
  /\ exists session',
      bind_Negotiate sample (Some grant_requested) zero_pool session INil
        = Returned ((0, None, Some broken_pipe), session')
      /\ written (conn session') = out.
Proof.
  intros session out. split; [reflexivity|].
  edestruct (bind_server_custom_response sample grant_requested zero_pool session)
    with (data := INil) as (session' & Hrun & Hout).
  - reflexivity.
  - reflexivity.
  - reflexivity.
  - reflexivity.
  - reflexivity.
  - reflexivity.
  - exists session'. split; [exact Hrun | exact Hout].
Defined.

Lemma bind_server_default_allocation_witness :
  let session := server_session (iq_tokens "X" "set" "resource" "home") in
  Z.land (State session) Received = Received
  /\ exists session',
      bind_Negotiate sample None zero_pool session INil
        = Returned ((0, None, None), session')
      /\ written (conn session')
         = written (conn session)
           ++ stanza_WrapIQ sample None ResultIQ
                [StartTok (mkStart (mkName "" "jid") []);
                 CharData "user@example.com/0000000000000000";
                 EndTok (mkName "" "jid")].
Proof.
  intros session. split; [reflexivity|].
  edestruct (bind_server_default_allocation sample zero_pool session)
    with (data := INil) as (session' & Hrun & Hout).
  - reflexivity.
  - reflexivity.
  - reflexivity.
  - reflexivity.
  - reflexivity.
  - reflexivity.
  - reflexivity.
  - exists session'. split; [exact Hrun | exact Hout].
Defined.

Lemma bind_List_required_witness :
  (bind_List (broken broken_pipe) message_start).1.1 = true
  /\ ((bind_List (reliable []) message_start).1.2 = None ->
      written (bind_List (reliable []) message_start).2
      = written (reliable []) ++ [StartTok message_start; End message_start]).
Proof.
  split.
  - exact (proj1 (bind_List_required (broken broken_pipe) message_start)).
  - exact (proj2 (bind_List_required (reliable []) message_start)).
Defined.

(** ** ibr2: more on the advertised list *)

Section ListFuncMore.

Lemma EncodeToken_refused (e e' : TokenWriter) (t : Token) (err : error) :
  EncodeToken e t = (e', Some err) -> e' = e.
Proof.
  unfold EncodeToken. destruct (refuses e (written e) t); by intros [= <-].
Qed.

(** The loop over a concatenation: the second part runs with the types of
    the first part added to [seen]. *)
Lemma listLoop_app (L L' : list Challenge) (seen : gset string) (e : TokenWriter) :
  listLoop (L ++ L') seen e =
    and_then (listLoop L seen e)
      (fun e1 => listLoop L' (list_to_set (ChallengeType <$> L) ∪ seen) e1)
      (fun e1 err => (e1, Some err)).
Proof.
  revert seen e. induction L as [|c L IH]; intros seen e.
  - cbn [app listLoop and_then fmap list_fmap list_to_set foldr].
    by rewrite (left_id_L ∅ (∪)).
  - cbn [app listLoop]. rewrite fmap_cons, list_to_set_cons.
    destruct (decide (ChallengeType c ∈ seen)) as [Hin|Hnew].
    + rewrite IH. do 2 f_equal. set_solver.
    + unfold and_then at 1 2 3 5 6 7.
      destruct (EncodeToken e _) as [e1 [err|]]; [done|].
      destruct (EncodeToken e1 _) as [e2 [err|]]; [done|].
      destruct (EncodeToken e2 _) as [e3 [err|]]; [done|].
      rewrite IH. unfold and_then.
      destruct (listLoop L _ e3) as [e4 [err|]]; [done|].
      f_equal. set_solver.
Qed.

(** Challenges whose types have all been seen write nothing. *)
Lemma listLoop_known (L : list Challenge) (seen : gset string) (e : TokenWriter) :
  (forall c, c ∈ L -> ChallengeType c ∈ seen) ->
  listLoop L seen e = (e, None).
Proof.
  induction L as [|c L IH]; intros Hknown; [done|].
  cbn [listLoop]. rewrite decide_True by (apply Hknown; set_solver).
  apply IH. intros c' Hc'. apply Hknown. set_solver.
Qed.

(** Whatever happens in the loop, what it has appended is a prefix of the
    elements it was to write. *)
Lemma listLoop_prefix (L : list Challenge) (seen : gset string) (e : TokenWriter) :
  exists p,
    written (listLoop L seen e).1 = written e ++ p
    /\ p `prefix_of`
         concat (challenge_element <$>
           filter (fun u => u ∉ seen) (first_seen (ChallengeType <$> L))).
Proof.
  revert seen e. induction L as [|c L IH]; intros seen e.
  - exists []. split; [by rewrite app_nil_r | apply prefix_nil].
  - rewrite fmap_cons, first_seen_unseen_cons. cbn [listLoop].
    destruct (decide (ChallengeType c ∈ seen)) as [Hin|Hnew]; [apply IH|].
    unfold and_then. rewrite fmap_cons. cbn [concat challenge_element app].
    destruct (EncodeToken e _) as [e1 [err|]] eqn:H1.
    { apply EncodeToken_refused in H1 as ->. cbn [fst]. exists [].
      split; [by rewrite app_nil_r | apply prefix_nil]. }
    apply EncodeToken_ok in H1 as (W1 & _).
    destruct (EncodeToken e1 _) as [e2 [err|]] eqn:H2.
    { apply EncodeToken_refused in H2 as ->. cbn [fst]. eexists [_].
      split; [exact W1|]. apply prefix_cons, prefix_nil. }
    apply EncodeToken_ok in H2 as (W2 & _).
    destruct (EncodeToken e2 _) as [e3 [err|]] eqn:H3.
    { apply EncodeToken_refused in H3 as ->. cbn [fst]. eexists [_; _].
      split; [by rewrite W2, W1, <- app_assoc|].
      do 2 apply prefix_cons. apply prefix_nil. }
    apply EncodeToken_ok in H3 as (W3 & _).
    destruct (IH ({[ChallengeType c]} ∪ seen) e3) as (p & Wp & Hp).
    eexists (_ :: _ :: _ :: p).
    split; [by rewrite Wp, W3, W2, W1, <- !app_assoc|].
    by do 3 apply prefix_cons.
Qed.

End ListFuncMore.

(** X16: the List function of the registration features never reports the
    feature as required, on no path, failing or not. *)
Theorem listFunc_never_required (L : list Challenge) (e : TokenWriter)
    (start : StartElement) :
  (listFunc L e start).1.1 = false.
Proof.
  unfold listFunc, and_then.
  destruct (EncodeToken e _) as [e1 [err|]]; [done|].
  destruct (listLoop L ∅ e1) as [e2 [err|]]; [done|].
  by destruct (EncodeToken e2 _) as [e3 [err|]].
Qed.

(** X17: appending challenges whose types are already in the list changes
    nothing: List behaves the same on every encoder, failing ones
    included.  In particular a list supplied twice advertises as once. *)
Theorem listFunc_app_known (L L' : list Challenge) (e : TokenWriter)
    (start : StartElement)
    (Hknown : forall c, c ∈ L' -> ChallengeType c ∈ ChallengeType <$> L) :
  listFunc (L ++ L') e start = listFunc L e start.
Proof.
  unfold listFunc.
  destruct (EncodeToken e (StartTok start)) as [e1 [err|]]; cbn [and_then];
    [done|].
  rewrite listLoop_app.
  destruct (listLoop L ∅ e1) as [e2 [err|]]; cbn [and_then]; [done|].
  rewrite listLoop_known; [done|].
  intros c Hc. specialize (Hknown c Hc). set_solver.
Qed.

Lemma listFunc_app_known_witness :
  (forall c, c ∈ sample_challenges ->
             ChallengeType c ∈ ChallengeType <$> sample_challenges)
  /\ listFunc (sample_challenges ++ sample_challenges)
       (closing_after 4 broken_pipe) register_start
     = listFunc sample_challenges (closing_after 4 broken_pipe) register_start.
Proof.
  assert (Hknown : forall c, c ∈ sample_challenges ->
                     ChallengeType c ∈ ChallengeType <$> sample_challenges).
  { intros c Hc. apply list_elem_of_fmap. by exists c. }
  split; [exact Hknown|].
  exact (listFunc_app_known sample_challenges sample_challenges
           (closing_after 4 broken_pipe) register_start Hknown).
Defined.

(** X18: whatever the encoder does, what List has appended when it returns
    is a prefix of the advertisement of the distinct types in first-seen
    order: a failure cuts the advertisement short but never reorders,
    repeats or invents a token. *)
Theorem listFunc_partial_prefix (L : list Challenge) (e : TokenWriter)
    (start : StartElement) :
  exists p,
    written (listFunc L e start).2 = written e ++ p
    /\ p `prefix_of` advertisement start (first_seen (ChallengeType <$> L)).
Proof.
  unfold listFunc, and_then, advertisement.
  destruct (EncodeToken e _) as [e1 [err|]] eqn:H1.
  { apply EncodeToken_refused in H1 as ->. exists [].
    split; [by rewrite app_nil_r | apply prefix_nil]. }
  apply EncodeToken_ok in H1 as (W1 & _).
  destruct (listLoop_prefix L ∅ e1) as (p & Wp & Hp).
  rewrite filter_unseen_empty in Hp by done.
  destruct (listLoop L ∅ e1) as [e2 [err|]] eqn:Hloop; cbn [fst snd] in *.
  { exists (StartTok start :: p).
    split; [by rewrite Wp, W1, <- app_assoc|].
    apply prefix_cons. by apply prefix_app_r. }
  apply listLoop_written in Hloop. rewrite filter_unseen_empty in Hloop by done.
  destruct (EncodeToken e2 _) as [e3 [err|]] eqn:H3; cbn [snd].
  { apply EncodeToken_refused in H3 as ->. eexists (StartTok start :: _).
    split; [by rewrite Hloop, W1, <- app_assoc|].
    apply prefix_cons. by apply prefix_app_r. }
  apply EncodeToken_ok in H3 as (W3 & _).
  eexists. split; [|done].
  rewrite W3, Hloop, W1. by rewrite <- !app_assoc.
Qed.

(** ** ibr2: more on the compatibility gate *)

Section GateMore.

Lemma size_list_to_set_le (l : list string) :
  (size (list_to_set l : gset string) <= length l)%nat.
Proof.
  induction l as [|x l IH]; [done|].
  rewrite list_to_set_cons, size_union_alt, size_singleton. cbn [length].
  pose proof (subseteq_size (list_to_set l ∖ {[x]}) (list_to_set l : gset string)
                ltac:(set_solver)).
  lia.
Qed.

(** A repeated entry makes the list longer than its set of types. *)
Lemma size_list_to_set_lt (l : list string) :
  ¬ NoDup l -> (size (list_to_set l : gset string) < length l)%nat.
Proof.
  induction l as [|x l IH]; intros Hdup.
  - destruct Hdup. constructor.
  - rewrite list_to_set_cons. cbn [length].
    destruct (decide (x ∈ l)) as [Hin|Hout].
    + assert ({[x]} ∪ list_to_set l = (list_to_set l : gset string)) as ->
        by set_solver.
      pose proof (size_list_to_set_le l). lia.
    + assert (¬ NoDup l) as Hl by (intros Hnd; apply Hdup; by constructor).
      specialize (IH Hl).
      rewrite size_union_alt, size_singleton.
      pose proof (subseteq_size (list_to_set l ∖ {[x]}) (list_to_set l : gset string)
                    ltac:(set_solver)).
      lia.
Qed.

End GateMore.

(** X19: a peer all of whose advertised types are among the local ones is
    always reported as supported, duplicates in either list or not; the
    empty advertisement in particular. *)
Theorem parseFunc_supported_when_subset (L : list Challenge)
    (d : ChallengeDecoder) (start : StartElement) (P : list string)
    (Hdec : d start = inr P)
    (Hsub : P ⊆ ChallengeType <$> L) :
  parseFunc L d start = (false, IBool true, None).
Proof.
  unfold parseFunc. rewrite Hdec, parseFunc_map.
  do 2 f_equal. f_equal. apply Nat.leb_le.
  assert (list_to_set (ChallengeType <$> L) ∪ list_to_set P
          = (list_to_set (ChallengeType <$> L) : gset string)) as ->
    by set_solver.
  rewrite <- (length_fmap ChallengeType). apply size_list_to_set_le.
Qed.

Lemma parseFunc_supported_when_subset_witness :
  let d : ChallengeDecoder := fun _ => inr ["oob"; "form"; "oob"] in
  d register_start = inr ["oob"; "form"; "oob"]
  /\ ["oob"; "form"; "oob"] ⊆ ChallengeType <$> sample_challenges
  /\ parseFunc sample_challenges d register_start = (false, IBool true, None).
Proof.
  intros d.
  assert (Hsub : ["oob"; "form"; "oob"] ⊆ ChallengeType <$> sample_challenges).
  { intros t Ht. cbn. set_solver. }
  split; [reflexivity|]. split; [exact Hsub|].
  exact (parseFunc_supported_when_subset sample_challenges d register_start
           ["oob"; "form"; "oob"] eq_refl Hsub).
Defined.

Lemma parseFunc_subset_witness :
  let L := [mkChallenge "form"; mkChallenge "oob"] in
  let d : ChallengeDecoder := fun _ => inr ["captcha"] in
  NoDup (ChallengeType <$> L)
  /\ parseFunc L d register_start
     = (false, IBool (bool_decide (["captcha"] ⊆ ChallengeType <$> L)), None).
Proof.
  intros L d.
  assert (Hnd : NoDup (ChallengeType <$> L)).
  { cbn. repeat constructor; set_solver. }
  split; [exact Hnd|].
  exact (parseFunc_subset L d register_start ["captcha"] Hnd eq_refl).
Defined.

(** X21: as soon as the local list names some type twice, a peer that
    advertises one type the local side does not support at all is reported
    as supported. *)
Theorem parseFunc_duplicate_admits_unknown (L : list Challenge)
    (d : ChallengeDecoder) (start : StartElement) (t : string)
    (Hdup : ¬ NoDup (ChallengeType <$> L))
    (Hnew : t ∉ ChallengeType <$> L)
    (Hdec : d start = inr [t]) :
  parseFunc L d start = (false, IBool true, None).
Proof.
  unfold parseFunc. rewrite Hdec, parseFunc_map.
  do 2 f_equal. f_equal. apply Nat.leb_le.
  rewrite size_union by set_solver.
  pose proof (size_list_to_set_lt _ Hdup) as Hlt.
  rewrite length_fmap in Hlt.
  pose proof (size_list_to_set_le [t]) as Hone. cbn [length] in Hone. lia.
Qed.

Lemma parseFunc_duplicate_admits_unknown_witness :
  let d : ChallengeDecoder := fun _ => inr ["sms"] in
  ¬ NoDup (ChallengeType <$> sample_challenges)
  /\ ("sms" ∉ ChallengeType <$> sample_challenges)
  /\ parseFunc sample_challenges d register_start = (false, IBool true, None).
Proof.
  intros d.
  assert (Hdup : ¬ NoDup (ChallengeType <$> sample_challenges)).
  { cbn. intros Hnd. apply NoDup_cons in Hnd as [Hnd _]. set_solver. }
  assert (Hnew : "sms" ∉ ChallengeType <$> sample_challenges).
  { cbn. set_solver. }
  split; [exact Hdup|]. split; [exact Hnew|].
  exact (parseFunc_duplicate_admits_unknown sample_challenges d register_start
           "sms" Hdup Hnew eq_refl).
Defined.

(** X22: with no local challenge at all, only a peer that advertises no
    challenge type is supported. *)
Theorem parseFunc_empty_local (d : ChallengeDecoder) (start : StartElement)
    (P : list string) (Hdec : d start = inr P) :
  parseFunc [] d start = (false, IBool (bool_decide (P = [])), None).
Proof.
  unfold parseFunc. rewrite Hdec, parseFunc_map.
  do 2 f_equal. f_equal. apply Bool.eq_iff_eq_true.
  rewrite Nat.leb_le, bool_decide_eq_true. cbn [length fmap list_fmap].
  split.
  - intros Hsize. destruct P as [|t P]; [done|].
    assert (size (list_to_set [] ∪ list_to_set (t :: P) : gset string) = 0%nat)
      as Hzero by lia.
    apply size_empty_iff in Hzero. set_solver.
  - intros ->. done.
Qed.

Lemma parseFunc_empty_local_witness :
  let d : ChallengeDecoder := fun _ => inr ["form"] in
  d register_start = inr ["form"]
  /\ parseFunc [] d register_start
     = (false, IBool (bool_decide (["form"] = [])), None).
Proof.
  intros d. split; [reflexivity|].
  exact (parseFunc_empty_local d register_start ["form"] eq_refl).
Defined.

(** ** ibr2: the rest of Negotiate *)

Lemma negotiateFunc_otherwise_panics_witness :
  let session := server_session [] in
  (Z.land (State session) Received = Received \/ IBool false ≠ IBool false)
  /\ exists p, negotiateFunc sample_challenges session (IBool false) = Panicked p.
Proof.
  intros session.
  assert (H : Z.land (State session) Received = Received
              \/ IBool false ≠ IBool false) by (left; reflexivity).
  split; [exact H|].
  exact (negotiateFunc_otherwise_panics sample_challenges session (IBool false) H).
Defined.

(** X24: the Negotiate function of [Register] and of [Recovery] never
    changes the session and, when it returns at all, returns the zero mask,
    no transport and no error: the only thing these features can do so far
    is to be skipped. *)
Theorem ibr2_Negotiate_only_skips (L : list Challenge) (rnd : Entropy)
    (session session' : Session) (supported : iface) (res : NegotiateResult)
    (Hret : Negotiate (Register L) rnd session supported = Returned (res, session')) :
  res = (0, None, None) /\ session' = session
  /\ Negotiate (Recovery L) rnd session supported = Returned (res, session')
  /\ Z.land (State session) Received ≠ Received /\ supported = IBool false.
Proof.
  cbn [Negotiate Register Recovery] in *.
  unfold ibr2_Negotiate, negotiateFunc in *.
  case_bool_decide as Hside; cbn in Hret |- *; [done|].
  destruct supported as [|[|]|s]; cbn in Hret |- *; try done.
  by injection Hret as <- <-.
Qed.

Lemma ibr2_Negotiate_only_skips_witness :
  Negotiate (Register sample_challenges) zero_pool client_session (IBool false)
    = Returned ((0, None, None), client_session)
  /\ Negotiate (Recovery sample_challenges) zero_pool client_session (IBool false)
     = Returned ((0, None, None), client_session)
  /\ Z.land (State client_session) Received ≠ Received.
Proof.
  assert (Hret : Negotiate (Register sample_challenges) zero_pool client_session
                   (IBool false) = Returned ((0, None, None), client_session))
    by reflexivity.
  split; [exact Hret|].
  destruct (ibr2_Negotiate_only_skips sample_challenges zero_pool client_session
              client_session (IBool false) (0, None, None) Hret)
    as (_ & _ & Hrec & Hcli & _).
  split; [exact Hrec | exact Hcli].
Defined.
